(** * Persona-driven PDF section ranking: [Challenge_1b/run_analysis.py]

    A shallow embedding of the ranking pipeline of [run_analysis.py] and the
    properties of its natural-language specification.

    Python values are rendered as follows.
    - [str] is a list of characters ([text]); literals are written with
      [str "..."].  Characters are the code points below 256.
    - A list is a list; [l[i]] is the partial lookup [l !! i] ([None]
      stands for [IndexError]).
    - The integer command-line counts are [Z]; [l[:k]] is [py_slice_to].
    - Similarity scores are exact rationals: every finite float is one, and
      only their order matters to the ranking.
    - The capabilities the script takes from other packages (the file
      system, the PDF reader, the sentence encoder, the tensor sort) are
      the fields of a record [Capabilities]; a capability that can raise
      returns an [option], and [main] threads the failure through the
      option monad. *)

From Stdlib Require Import QArith Ascii String.
From stdpp Require Import base option list sorting pretty.

Local Open Scope Z_scope.
Local Open Scope nat_scope.
Local Open Scope list_scope.

(** ** Text *)

Definition text := list ascii.

Definition str (s : string) : text := list_ascii_of_string s.

(** [str.isspace] for one character, which is also what [\s] matches in a
    [str] pattern: TAB..CR, FS..US, space, NEL and the no-break space. *)
Definition isspace (c : ascii) : bool :=
  let n := nat_of_ascii c in
  ((9 <=? n) && (n <=? 13)) || ((28 <=? n) && (n <=? 32))
  || (n =? 133) || (n =? 160).

(** The character class [[\.\?\!]] of [SECTION_SPLIT_RE]. *)
Definition is_terminator (c : ascii) : bool :=
  (nat_of_ascii c =? 46) || (nat_of_ascii c =? 63) || (nat_of_ascii c =? 33).

(** [s.lstrip()], [s.rstrip()] and [s.strip()]. *)
Fixpoint lstrip (s : text) : text :=
  match s with
  | c :: s' => if isspace c then lstrip s' else s
  | [] => []
  end.

Definition rstrip (s : text) : text := reverse (lstrip (reverse s)).

Definition strip (s : text) : text := lstrip (rstrip s).

(** Truth value of a string: [if s] holds of a non-empty string. *)
Definition truthy (s : text) : bool :=
  match s with [] => false | _ :: _ => true end.

(** ** Sentence splitter *)

(** [SECTION_SPLIT_RE.split(text)] for
    [SECTION_SPLIT_RE = re.compile(r'(?<=[\.\?\!])\s+')].

    The scanner reads the text left to right.  [cur] is the piece being
    read, latest character first; [behind] tells whether the character just
    before the cursor is in [[.?!]] (the lookbehind).  A match starts at a
    whitespace character with [behind] set; [\s+] is greedy, so the match
    takes the whole run ([re_split_skip]); the piece before the match is
    emitted and the scan resumes after it.  The rest of the text after the
    last match is the last piece, empty when the text ends in a match. *)
Fixpoint re_split_scan (skipping behind : bool) (cur : text) (s : text)
  : list text :=
  match s with
  | [] => [reverse cur]
  | c :: s' =>
      if isspace c then
        if skipping then re_split_scan true false cur s'
        else if behind then reverse cur :: re_split_scan true false [] s'
        else re_split_scan false false (c :: cur) s'
      else re_split_scan false (is_terminator c) (c :: cur) s'
  end.

Definition re_split (s : text) : list text := re_split_scan false false [] s.

(** [split_sentences(text)]:
    [[s for s in SECTION_SPLIT_RE.split(text) if s.strip()]]. *)
Definition split_sentences (s : text) : list text :=
  filter (fun p => truthy (strip p) = true) (re_split s).

(** ** Paths

    [os.path.join(a, b)] and [os.path.basename(p)] on a POSIX host. *)

Definition is_sep (c : ascii) : bool := nat_of_ascii c =? 47.

Definition starts_with_sep (p : text) : bool :=
  match p with c :: _ => is_sep c | [] => false end.

Definition ends_with_sep (p : text) : bool :=
  match last p with Some c => is_sep c | None => false end.

Definition path_join (a b : text) : text :=
  if starts_with_sep b then b
  else if negb (truthy a) || ends_with_sep a then a ++ b
  else a ++ str "/" ++ b.

(** [p[p.rfind('/') + 1:]]: [cur] is the part read since the last
    separator, latest character first. *)
Fixpoint basename_scan (cur : text) (p : text) : text :=
  match p with
  | [] => reverse cur
  | c :: p' => if is_sep c then basename_scan [] p' else basename_scan (c :: cur) p'
  end.

Definition basename (p : text) : text := basename_scan [] p.

(** ** Unit extractor *)

(** One entry of [secs]: the dict with keys [document], [page], [title]
    and [text]. *)
Record section := Section_ {
  sec_document : text;
  sec_page : nat;
  sec_title : text;
  sec_text : text
}.

(** [f"{n}"] for a non-negative integer. *)
Definition format_int (n : nat) : text := str (pretty n).

(** The loop [for page in doc] of [extract_page_sections]: [pages] holds
    [page.get_text()] of the pages still to visit and [number] is
    [page.number] of the first of them. *)
Fixpoint extract_pages (document : text) (number : nat) (pages : list text)
  : list section :=
  match pages with
  | [] => []
  | raw :: rest =>
      let t := strip raw in
      if truthy t then
        {| sec_document := document;
           sec_page := number + 1;
           sec_title := str "Page " ++ format_int (number + 1);
           sec_text := t |} :: extract_pages document (S number) rest
      else extract_pages document (S number) rest
  end.

(** ** Run configuration *)

(** The object [json.load] returns for a run configuration: each of the
    three keys may be absent. *)
Record config := Config {
  cfg_documents : option (list text);
  cfg_persona : option text;
  cfg_job : option text
}.

(** ** Capabilities taken from other packages *)

Record Capabilities (tensor : Type) := {
  (** [json.load(f)] on the file at a path; [None] when opening or
      parsing raises *)
  json_load : text -> option config;
  (** [os.path.exists(path)] *)
  path_exists : text -> bool;
  (** [fitz.open(path)] followed by [page.get_text()] for each page in
      page order; [None] when the reader raises *)
  open_pages : text -> option (list text);
  (** [model.encode(query, convert_to_tensor=True)] for one string *)
  encode_query : text -> option tensor;
  (** [model.encode(texts, convert_to_tensor=True)] for a list of strings *)
  encode_texts : list text -> option tensor;
  (** [util.cos_sim(q_emb, embs)[0]] as a list of scores *)
  cos_sim_row : tensor -> tensor -> option (list Q);
  (** [scores.argsort(descending=True).tolist()] *)
  argsort_desc : list Q -> list nat;
  (** [datetime.utcnow().isoformat()] *)
  utcnow_isoformat : text
}.

Arguments json_load {tensor} _ _.
Arguments path_exists {tensor} _ _.
Arguments open_pages {tensor} _ _.
Arguments encode_query {tensor} _ _.
Arguments encode_texts {tensor} _ _.
Arguments cos_sim_row {tensor} _ _ _.
Arguments argsort_desc {tensor} _ _.
Arguments utcnow_isoformat {tensor} _.

(** ** Similarity ranker *)

(** [l[:k]] for an integer [k]: the first [k] items when [k >= 0], all but
    the last [-k] items when [k < 0]. *)
Definition py_slice_to {A} (k : Z) (l : list A) : list A :=
  if (0 <=? k)%Z then take (Z.to_nat k) l
  else take (length l - Z.to_nat (- k)) l.

(** [scores.argsort(descending=True).tolist()[:k]] *)
Definition rank_top (argsort : list Q -> list nat) (scores : list Q) (k : Z)
  : list nat :=
  py_slice_to k (argsort scores).

(** What [argsort(descending=True)] promises when stability is not asked
    for: the indices of [scores], each once, with scores never increasing
    along the result. *)
Definition descending (scores : list Q) (out : list nat) : Prop :=
  forall a b i j si sj,
    a < b -> out !! a = Some i -> out !! b = Some j ->
    scores !! i = Some si -> scores !! j = Some sj -> (sj <= si)%Q.

Definition is_argsort_desc (scores : list Q) (out : list nat) : Prop :=
  out ≡ₚ seq 0 (length scores) /\ descending scores out.

Definition argsort_contract (argsort : list Q -> list nat) : Prop :=
  forall scores, is_argsort_desc scores (argsort scores).

(** Candidates [i] and [j] have equal similarity. *)
Definition tied (scores : list Q) (i j : nat) : Prop :=
  exists si sj, scores !! i = Some si /\ scores !! j = Some sj /\ (si == sj)%Q.

(** A ranking keeps tied candidates in their original order. *)
Definition keeps_tie_order (scores : list Q) (out : list nat) : Prop :=
  forall a b i j,
    out !! a = Some i -> out !! b = Some j -> i < j -> tied scores i j -> a < b.

(** What [argsort(descending=True, stable=True)] promises. *)
Definition stable_argsort_contract (argsort : list Q -> list nat) : Prop :=
  forall scores,
    is_argsort_desc scores (argsort scores)
    /\ keeps_tie_order scores (argsort scores).

(** ** Arguments and result *)

(** The namespace [parse_args] returns: [--pdf-dir], [--config],
    [--output], [--top-sections] (5 when not given) and [--top-sentences]
    (3 when not given); the two counts are any integers. *)
Record arguments := Arguments_ {
  pdf_dir : text;
  config_file : text;
  output_file : text;
  top_sections : Z;
  top_sentences : Z
}.

Record sub_section := SubSection {
  refined_text : text;
  sub_page_number : nat
}.

Record out_section := OutSection {
  out_document : text;
  out_page_number : nat;
  section_title : text;
  importance_rank : nat;
  sub_section_analysis : list sub_section
}.

Record metadata := Metadata {
  md_documents : list text;
  md_persona : text;
  md_job_to_be_done : text;
  md_timestamp : text
}.

Record result := Result {
  res_metadata : metadata;
  extracted_sections : list out_section
}.

(** ** Pipeline *)

Section Pipeline.
Context {tensor : Type}.
Variable env : Capabilities tensor.

(** [load_config(path)] *)
Definition load_config (path : text) : option config := json_load env path.

(** [extract_page_sections(pdf_path)] *)
Definition extract_page_sections (pdf_path : text) : option (list section) :=
  pages ← open_pages env pdf_path;
  Some (extract_pages (basename pdf_path) 0 pages).

(** The loop [for fn in docs] of [main], which fills [all_secs]. *)
Fixpoint collect_sections (pdfdir : text) (docs : list text)
  : option (list section) :=
  match docs with
  | [] => Some []
  | fn :: rest =>
      let path := path_join pdfdir fn in
      if path_exists env path then
        secs ← extract_page_sections path;
        more ← collect_sections pdfdir rest;
        Some (secs ++ more)
      else collect_sections pdfdir rest
  end.

(** The loop [for si in top_sidx] of [main]. *)
Fixpoint sub_entries (sents : list text) (page : nat) (top_sidx : list nat)
  : option (list sub_section) :=
  match top_sidx with
  | [] => Some []
  | si :: rest =>
      s ← sents !! si;
      more ← sub_entries sents page rest;
      Some ({| refined_text := s; sub_page_number := page |} :: more)
  end.

(** The body of the loop [for rank, idx in enumerate(ranked, start=1)]
    of [main], once [sec = all_secs[idx]] is known. *)
Definition analyse_section (q_emb : tensor) (k_sentences : Z)
    (rank : nat) (sec : section) : option out_section :=
  let sents := split_sentences (sec_text sec) in
  sent_embs ← encode_texts env sents;
  sent_scores ← cos_sim_row env q_emb sent_embs;
  let top_sidx := rank_top (argsort_desc env) sent_scores k_sentences in
  subs ← sub_entries sents (sec_page sec) top_sidx;
  Some {| out_document := sec_document sec;
          out_page_number := sec_page sec;
          section_title := sec_title sec;
          importance_rank := rank;
          sub_section_analysis := subs |}.

(** The loop [for rank, idx in enumerate(ranked, start=1)] of [main]. *)
Fixpoint rank_sections (q_emb : tensor) (k_sentences : Z)
    (all_secs : list section) (rank : nat) (ranked : list nat)
  : option (list out_section) :=
  match ranked with
  | [] => Some []
  | idx :: rest =>
      sec ← all_secs !! idx;
      out ← analyse_section q_emb k_sentences rank sec;
      more ← rank_sections q_emb k_sentences all_secs (S rank) rest;
      Some (out :: more)
  end.

(** [main()] once [args] and [cfg] are known, up to the object [result]
    that is handed to [json.dump]; [None] when a capability raises. *)
Definition main_body (args : arguments) (cfg : config) : option result :=
  let docs := default [] (cfg_documents cfg) in
  let persona := default [] (cfg_persona cfg) in
  let job := default [] (cfg_job cfg) in
  let query := persona ++ str ". " ++ job in
  q_emb ← encode_query env query;
  all_secs ← collect_sections (pdf_dir args) docs;
  sec_embs ← encode_texts env (sec_text <$> all_secs);
  scores ← cos_sim_row env q_emb sec_embs;
  let ranked := rank_top (argsort_desc env) scores (top_sections args) in
  out_secs ← rank_sections q_emb (top_sentences args) all_secs 1 ranked;
  Some {| res_metadata :=
            {| md_documents := docs;
               md_persona := persona;
               md_job_to_be_done := job;
               md_timestamp := utcnow_isoformat env ++ str "Z" |};
          extracted_sections := out_secs |}.

(** [main()] for the parsed arguments [args]. *)
Definition main (args : arguments) : option result :=
  cfg ← load_config (config_file args);
  main_body args cfg.

(** The encoder followed by the similarity: one score per text. *)
Definition scores_of (q_emb : tensor) (texts : list text) : option (list Q) :=
  embs ← encode_texts env texts;
  cos_sim_row env q_emb embs.

(** The encoder and the similarity return one score per encoded text. *)
Definition scoring_contract : Prop :=
  forall q_emb texts scores,
    scores_of q_emb texts = Some scores -> length scores = length texts.
End Pipeline.

(** ** A sort that meets the contract of [argsort]

    An insertion sort over the pairs (index, score), inserting the last
    candidate first.  [ahead x y] decides whether the score [x] of the
    candidate being inserted goes in front of the score [y] of a later
    candidate already placed. *)

Definition enumerate (scores : list Q) : list (nat * Q) :=
  zip (seq 0 (length scores)) scores.

Fixpoint insert_by (ahead : Q -> Q -> bool) (x : nat * Q) (l : list (nat * Q))
  : list (nat * Q) :=
  match l with
  | [] => [x]
  | y :: l' =>
      if ahead (snd x) (snd y) then x :: l else y :: insert_by ahead x l'
  end.

Definition argsort_by (ahead : Q -> Q -> bool) (scores : list Q) : list nat :=
  fst <$> foldr (insert_by ahead) [] (enumerate scores).

(** A stable descending sort: a candidate goes in front of the later
    candidates whose score is not larger. *)
Definition stable_argsort : list Q -> list nat :=
  argsort_by (fun x y => Qle_bool y x).

(** ** Vocabulary of the properties *)

(** A text with no visible character (the empty text included). *)
Definition blank (s : text) : Prop := Forall (fun c => isspace c = true) s.

#[global] Instance blank_dec s : Decision (blank s).
Proof. unfold blank. apply _. Defined.

(** [p] is a run of consecutive characters of [s]. *)
Definition substring (p s : text) : Prop := exists a b, s = a ++ p ++ b.

Definition starts_with_space (s : text) : bool :=
  match s with c :: _ => isspace c | [] => false end.

(** The text has a split point: one of [.?!] followed by whitespace. *)
Fixpoint has_boundary (s : text) : bool :=
  match s with
  | [] => false
  | c :: s' => (is_terminator c && starts_with_space s') || has_boundary s'
  end.

(** The pages of a document with their 1-based numbers. *)
Definition numbered (pages : list text) : list (nat * text) :=
  zip (seq 1 (length pages)) pages.

(** The unit made from page [n] with raw text [raw]. *)
Definition page_unit (document : text) (np : nat * text) : section :=
  {| sec_document := document;
     sec_page := np.1;
     sec_title := str "Page " ++ format_int np.1;
     sec_text := strip np.2 |}.

(** The sorted orders of the insertion sort, on pairs (index, score). *)
Definition score_ge (x y : nat * Q) : Prop := (y.2 <= x.2)%Q.

Definition score_ge_stable (x y : nat * Q) : Prop :=
  (y.2 <= x.2)%Q /\ ((x.2 == y.2)%Q -> x.1 < y.1).

(** In the insertion sort by [ahead] with sorted order [R]: [x] may be
    inserted among entries [y] placed after it. *)
Definition placeable (ahead : Q -> Q -> bool) (R : relation (nat * Q))
    (x y : nat * Q) : Prop :=
  (ahead x.2 y.2 = true -> R x y) /\ (ahead x.2 y.2 = false -> R y x).

(** The configuration with its document list replaced. *)
Definition with_docs (cfg : config) (docs : list text) : config :=
  {| cfg_documents := Some docs;
     cfg_persona := cfg_persona cfg;
     cfg_job := cfg_job cfg |}.

(** The configuration with every absent field written out as the value
    [cfg.get] falls back to. *)
Definition with_defaults (cfg : config) : config :=
  {| cfg_documents := Some (default [] (cfg_documents cfg));
     cfg_persona := Some (default [] (cfg_persona cfg));
     cfg_job := Some (default [] (cfg_job cfg)) |}.

(** What one selected section carries into the result. *)
Definition analysed (k_sentences : Z) (sec : section) (out : out_section)
  : Prop :=
  out_document out = sec_document sec
  /\ out_page_number out = sec_page sec
  /\ section_title out = sec_title sec
  /\ length (sub_section_analysis out)
     = Nat.min (Z.to_nat k_sentences)
         (length (split_sentences (sec_text sec)))
  /\ Forall (fun e => refined_text e ∈ split_sentences (sec_text sec)
                      /\ sub_page_number e = sec_page sec)
       (sub_section_analysis out).

(** ** A stand-in environment

    A file system given as a table from paths to page texts, and an encoder
    that scores a text by its length (the shorter, the closer to the
    query).  Like the sentence encoder of the script it has no answer for an
    empty batch.  Three sample configurations sit in files under [in/]. *)

Definition demo_cfg : config :=
  {| cfg_documents := Some [str "gone.pdf"; str "guide.pdf"];
     cfg_persona := Some (str "Traveller");
     cfg_job := Some (str "Plan a trip") |}.

Definition demo_cfg_no_persona : config :=
  {| cfg_documents := Some [str "gone.pdf"; str "guide.pdf"];
     cfg_persona := None;
     cfg_job := Some (str "Plan a trip") |}.

Definition demo_cfg_missing : config :=
  {| cfg_documents := Some [str "gone.pdf"];
     cfg_persona := Some (str "Traveller");
     cfg_job := Some (str "Plan a trip") |}.

Definition demo_json_load (path : text) : option config :=
  if decide (path = str "in/input.json") then Some demo_cfg
  else if decide (path = str "in/no_persona.json") then Some demo_cfg_no_persona
  else if decide (path = str "in/missing.json") then Some demo_cfg_missing
  else None.

Fixpoint demo_lookup (files : list (text * list text)) (path : text)
  : option (list text) :=
  match files with
  | [] => None
  | (p, pages) :: rest =>
      if decide (p = path) then Some pages else demo_lookup rest path
  end.

Definition demo_score (t : text) : Q := 1 # Pos.of_succ_nat (length t).

Definition demo_env (files : list (text * list text))
    (argsort : list Q -> list nat) : Capabilities (list Q) :=
  {| json_load := demo_json_load;
     path_exists := fun path => bool_decide (is_Some (demo_lookup files path));
     open_pages := demo_lookup files;
     encode_query := fun _ => Some [];
     encode_texts := fun texts =>
       match texts with
       | [] => None
       | _ :: _ => Some (demo_score <$> texts)
       end;
     cos_sim_row := fun _ embs => Some embs;
     argsort_desc := argsort;
     utcnow_isoformat := str "2025-07-28T10:15:30.000000" |}.

Definition demo_files : list (text * list text) :=
  [(str "pdfs/guide.pdf",
    [str "Plan the trip. Book early!  Pack light.
"; str "  
 "; str "Visit the old town."])].

Definition demo_args : arguments :=
  {| pdf_dir := str "pdfs";
     config_file := str "in/input.json";
     output_file := str "out/output.json";
     top_sections := 5;
     top_sentences := 3 |}.

Definition demo_args_no_persona : arguments :=
  {| pdf_dir := str "pdfs";
     config_file := str "in/no_persona.json";
     output_file := str "out/output.json";
     top_sections := 5;
     top_sentences := 3 |}.

(** The sections the stand-in run ranks. *)
Definition demo_out_sections : list out_section :=
  [ {| out_document := str "guide.pdf"; out_page_number := 3;
       section_title := str "Page 3"; importance_rank := 1;
       sub_section_analysis :=
         [ {| refined_text := str "Visit the old town.";
              sub_page_number := 3 |} ] |};
    {| out_document := str "guide.pdf"; out_page_number := 1;
       section_title := str "Page 1"; importance_rank := 2;
       sub_section_analysis :=
         [ {| refined_text := str "Book early!"; sub_page_number := 1 |};
           {| refined_text := str "Pack light."; sub_page_number := 1 |};
           {| refined_text := str "Plan the trip."; sub_page_number := 1 |} ]
    |} ].

(** The visible characters of a text, in order. *)
Definition visible (s : text) : list ascii :=
  filter (fun c => isspace c = false) (s : list ascii).

(** The text ends with one of [.?!]. *)
Definition ends_with_terminator (p : text) : bool :=
  match last p with Some c => is_terminator c | None => false end.

Definition ends_with_space (p : text) : bool :=
  match last p with Some c => isspace c | None => false end.

(** No whitespace at either end. *)
Definition trimmed (p : text) : Prop :=
  starts_with_space p = false /\ ends_with_space p = false.

(** A file name with no directory part. *)
Definition plain_name (fn : text) : Prop := Forall (fun c => is_sep c = false) fn.

(** [out] is the entry built for the selected unit [sec]: it carries the
    document, page and title of the unit and, for each position of the
    sentence ranking in turn, the sentence at that position with the page
    of the unit. *)
Definition section_entry {tensor} (env : Capabilities tensor) (q_emb : tensor)
    (k_sentences : Z) (sec : section) (out : out_section) : Prop :=
  out_document out = sec_document sec
  /\ out_page_number out = sec_page sec
  /\ section_title out = sec_title sec
  /\ exists scores,
       scores_of env q_emb (split_sentences (sec_text sec)) = Some scores
       /\ Forall2 (fun si e =>
                     split_sentences (sec_text sec) !! si = Some (refined_text e)
                     /\ sub_page_number e = sec_page sec)
            (rank_top (argsort_desc env) scores k_sentences)
            (sub_section_analysis out).

(** The result of the stand-in run on [demo_cfg]. *)
Definition demo_result : result :=
  {| res_metadata :=
       {| md_documents := [str "gone.pdf"; str "guide.pdf"];
          md_persona := str "Traveller";
          md_job_to_be_done := str "Plan a trip";
          md_timestamp := str "2025-07-28T10:15:30.000000Z" |};
     extracted_sections := demo_out_sections |}.

(** The number of items of [l[:k]] for a list of [n] items. *)
Definition slice_length (k : Z) (n : nat) : nat :=
  if (0 <=? k)%Z then Nat.min (Z.to_nat k) n else n - Z.to_nat (- k).

(** The arguments with another [--top-sections]. *)
Definition with_top_sections (args : arguments) (k : Z) : arguments :=
  {| pdf_dir := pdf_dir args;
     config_file := config_file args;
     output_file := output_file args;
     top_sections := k;
     top_sentences := top_sentences args |}.

(** What identifies a section of the result, and a unit. *)
Definition out_key (out : out_section) : text * nat * text :=
  (out_document out, out_page_number out, section_title out).

Definition sec_key (sec : section) : text * nat * text :=
  (sec_document sec, sec_page sec, sec_title sec).

(** The stand-in environment on a host where every path exists: the
    reader raises on the paths that are not in the table. *)
Definition demo_env_all_exist : Capabilities (list Q) :=
  {| json_load := demo_json_load;
     path_exists := fun _ => true;
     open_pages := demo_lookup demo_files;
     encode_query := encode_query (demo_env demo_files stable_argsort);
     encode_texts := encode_texts (demo_env demo_files stable_argsort);
     cos_sim_row := cos_sim_row (demo_env demo_files stable_argsort);
     argsort_desc := stable_argsort;
     utcnow_isoformat := utcnow_isoformat (demo_env demo_files stable_argsort) |}.

(** * Properties *)

(** ** Text *)

Lemma lstrip_nil s : lstrip s = [] <-> blank s.
Proof.
  unfold blank. induction s as [|c s IH]; simpl.
  - split; [constructor | done].
  - destruct (isspace c) eqn:Hc.
    + rewrite IH. split; [by constructor | by inversion 1].
    + split; [done | inversion 1; congruence].
Qed.

Lemma blank_lstrip s : blank (lstrip s) <-> blank s.
Proof.
  unfold blank. induction s as [|c s IH]; simpl; [done|].
  destruct (isspace c) eqn:Hc; [|done].
  rewrite IH. split; [by constructor | by inversion 1].
Qed.

Lemma blank_reverse s : blank (reverse s) <-> blank s.
Proof. unfold blank. apply Forall_reverse. Qed.

Lemma strip_nil s : strip s = [] <-> blank s.
Proof.
  unfold strip, rstrip.
  by rewrite lstrip_nil, blank_reverse, blank_lstrip, blank_reverse.
Qed.

Lemma truthy_strip s : truthy (strip s) = true <-> ~ blank s.
Proof.
  rewrite <- strip_nil. destruct (strip s); simpl; split; done.
Qed.

Lemma blank_strip s : blank (strip s) <-> strip s = [].
Proof. unfold strip. by rewrite blank_lstrip, lstrip_nil. Qed.

Lemma blank_app s1 s2 : blank (s1 ++ s2) <-> blank s1 /\ blank s2.
Proof. apply Forall_app. Qed.

Lemma terminator_not_space c : is_terminator c = true -> isspace c = false.
Proof.
  destruct c as [[] [] [] [] [] [] [] []]; vm_compute; congruence.
Qed.

(** ** Sentence splitter *)

Lemma scan_no_boundary s : forall behind cur,
  behind && starts_with_space s = false ->
  has_boundary s = false ->
  re_split_scan false behind cur s = [reverse cur ++ s].
Proof.
  induction s as [|c s IH]; intros behind cur Hb Hs; simpl in *.
  - by rewrite app_nil_r.
  - apply orb_false_iff in Hs as [Hc Hs].
    destruct (isspace c) eqn:Hsp.
    + rewrite andb_true_r in Hb. subst behind.
      rewrite IH by done. by rewrite reverse_cons, <- app_assoc.
    + rewrite IH by done. by rewrite reverse_cons, <- app_assoc.
Qed.

Lemma scan_skip w rest :
  blank w -> starts_with_space rest = false ->
  re_split_scan true false [] (w ++ rest) = re_split rest.
Proof.
  intros Hw Hrest. induction Hw as [|c w Hc _ IH]; simpl.
  - destruct rest as [|c r]; simpl in *; [done|].
    unfold re_split. simpl. by rewrite Hrest.
  - by rewrite Hc.
Qed.

Lemma scan_boundary c w rest a : forall skipping behind cur,
  is_terminator c = true -> w <> [] -> blank w ->
  starts_with_space rest = false ->
  re_split_scan skipping behind cur (a ++ c :: w ++ rest)
  = re_split_scan skipping behind cur (a ++ [c]) ++ re_split rest.
Proof.
  intros skipping behind cur Hc Hne Hw Hrest.
  revert skipping behind cur.
  induction a as [|x a IH]; intros skipping behind cur; simpl.
  - rewrite (terminator_not_space c Hc), Hc.
    destruct w as [|w0 w]; [done|]. inversion Hw as [|? ? Hw0 Hw']; subst.
    simpl. rewrite Hw0. simpl. by rewrite scan_skip.
  - destruct (isspace x); [destruct skipping; [|destruct behind]|];
      simpl; by rewrite IH.
Qed.

Lemma split_sentences_filter s :
  split_sentences s = filter (fun p => ~ blank p) (re_split s).
Proof.
  unfold split_sentences. apply list_filter_iff. intros p. apply truthy_strip.
Qed.

Lemma scan_keeps_terminator c a : forall skipping behind cur,
  is_terminator c = true ->
  exists pieces p,
    re_split_scan skipping behind cur (a ++ [c]) = pieces ++ [p ++ [c]].
Proof.
  intros skipping behind cur Hc. revert skipping behind cur.
  induction a as [|x a IH]; intros skipping behind cur; simpl.
  - exists [], (reverse cur).
    by rewrite (terminator_not_space c Hc), reverse_cons.
  - destruct (isspace x); [destruct skipping; [|destruct behind]|]; try apply IH.
    destruct (IH true false []) as (pieces & p & ->).
    by exists (reverse cur :: pieces), p.
Qed.

(** A text with a visible character keeps it in one of its pieces. *)
Lemma scan_nonblank s : forall skipping behind cur,
  ~ blank cur \/ ~ blank s ->
  Exists (fun p => ~ blank p) (re_split_scan skipping behind cur s).
Proof.
  induction s as [|c s IH]; intros skipping behind cur H; simpl.
  - apply Exists_cons_hd. rewrite blank_reverse.
    destruct H as [H|H]; [done|]. destruct H. constructor.
  - destruct (isspace c) eqn:Hc.
    + assert (~ blank cur \/ ~ blank s) as H'.
      { destruct H as [H|H]; [by left|]. right. intros Hs. apply H.
        by constructor. }
      destruct skipping; [by apply IH|]. destruct behind.
      * destruct H' as [H'|H'].
        -- apply Exists_cons_hd. by rewrite blank_reverse.
        -- apply Exists_cons_tl, IH. by right.
      * apply IH. destruct H' as [H'|H']; [left|by right].
        intros Hb. apply H'. by inversion Hb.
    + apply IH. left. intros Hb. inversion Hb. congruence.
Qed.

Lemma split_sentences_nonempty s : ~ blank s -> split_sentences s <> [].
Proof.
  intros Hs Hnil. rewrite split_sentences_filter in Hnil.
  pose proof (scan_nonblank s false false [] (or_intror Hs)) as Hex.
  apply Exists_exists in Hex as (p & Hp & Hnb).
  assert (p ∈ filter (fun p => ~ blank p) (re_split s)) as Hin
    by (by apply list_elem_of_filter).
  rewrite Hnil in Hin. by apply not_elem_of_nil in Hin.
Qed.

(** Every piece is a run of consecutive characters of the text. *)
Lemma scan_substring s : forall skipping behind cur p,
  (skipping = true -> cur = []) ->
  p ∈ re_split_scan skipping behind cur s ->
  substring p (reverse cur ++ s).
Proof.
  induction s as [|c s IH]; intros skipping behind cur p Hsk; simpl.
  - intros ->%list_elem_of_singleton. exists [], []. by rewrite !app_nil_r.
  - assert (forall b, p ∈ re_split_scan false b (c :: cur) s ->
                      substring p (reverse cur ++ c :: s)) as Hpush.
    { intros b Hp. apply IH in Hp; [|done].
      by rewrite reverse_cons, <- app_assoc in Hp. }
    destruct (isspace c); [destruct skipping; [|destruct behind]|]; eauto.
    + intros Hp. pose proof (Hsk eq_refl) as ->.
      apply IH in Hp as (a & b & Hp); [|done].
      exists (c :: a), b. simpl in *. by rewrite Hp.
    + intros [->|Hp]%elem_of_cons.
      * by exists [], (c :: s).
      * apply IH in Hp as (a & b & Hp); [|done].
        exists (reverse cur ++ c :: a), b. simpl in *.
        by rewrite Hp, <- app_assoc.
Qed.

Lemma split_sentences_substring s p :
  p ∈ split_sentences s -> ~ blank p /\ substring p s.
Proof.
  rewrite split_sentences_filter. intros [Hnb Hp]%list_elem_of_filter.
  split; [done|]. by apply (scan_substring s false false []) in Hp.
Qed.

(** C7: [split_sentences] drops the blank pieces of [re_split]; a text
    with no split point is a single piece; the pieces of a text with one
    of [.?!] followed by a run of whitespace are the pieces of what comes
    up to and including that character, then the pieces of what follows
    the whitespace, and the character ends the piece before the break;
    the sample sentence gives its three sentences. *)
Theorem split_sentences_rule :
  (forall s, split_sentences s = filter (fun p => ~ blank p) (re_split s))
  /\ (forall s, has_boundary s = false -> re_split s = [s])
  /\ (forall a c w rest,
        is_terminator c = true -> w <> [] -> blank w ->
        starts_with_space rest = false ->
        re_split (a ++ c :: w ++ rest) = re_split (a ++ [c]) ++ re_split rest)
  /\ (forall a c,
        is_terminator c = true ->
        exists pieces p, re_split (a ++ [c]) = pieces ++ [p ++ [c]])
  /\ split_sentences (str "Hello world. This is a test! Is it working?")
     = [str "Hello world."; str "This is a test!"; str "Is it working?"].
Proof.
  split; [apply split_sentences_filter|].
  split; [intros s Hs; by apply (scan_no_boundary s false [])|].
  split; [intros a c w rest; apply scan_boundary|].
  split; [intros a c; apply scan_keeps_terminator|].
  vm_compute. reflexivity.
Qed.

Lemma split_sentences_rule_witness :
  is_terminator "!"%char = true /\ str "  " <> [] /\ blank (str "  ")
  /\ starts_with_space (str "Go. On") = false
  /\ re_split (str "Wait" ++ "!"%char :: str "  " ++ str "Go. On")
     = re_split (str "Wait" ++ ["!"%char]) ++ re_split (str "Go. On").
Proof.
  split; [reflexivity|]. split; [discriminate|].
  split; [repeat constructor|]. split; [reflexivity|].
  destruct split_sentences_rule as (_ & _ & H & _).
  apply H; [reflexivity | discriminate | repeat constructor | reflexivity].
Defined.

(** ** Unit extractor *)

Lemma extract_pages_filter document pages : forall number,
  extract_pages document number pages
  = page_unit document
      <$> filter (fun np => ~ blank np.2)
            (zip (seq (S number) (length pages)) pages).
Proof.
  induction pages as [|raw rest IH]; intros number; simpl; [done|].
  rewrite filter_cons. simpl. rewrite IH.
  destruct (truthy (strip raw)) eqn:Ht.
  - apply truthy_strip in Ht. rewrite decide_True by done.
    rewrite fmap_cons. unfold page_unit at 2. simpl.
    by replace (number + 1) with (S number) by lia.
  - rewrite decide_False; [done|]. rewrite <- truthy_strip. congruence.
Qed.

Lemma extract_pages_nonblank document number pages :
  Forall (fun u => ~ blank (sec_text u)) (extract_pages document number pages).
Proof.
  revert number. induction pages as [|raw rest IH]; intros number; simpl.
  - constructor.
  - destruct (truthy (strip raw)) eqn:Ht; [|apply IH].
    constructor; [|apply IH]. simpl.
    rewrite blank_strip. by destruct (strip raw).
Qed.

(** C8: for a document the reader opens, the extractor returns one unit
    for each page whose text is not blank, in page order; the unit of page
    [n] (counted from 1 over all pages, blank ones included) has locator
    [n], label "Page n" and the trimmed page text.  With text on pages 1
    and 3 and a blank page 2 the locators are 1 and 3. *)
Theorem extract_page_sections_units {tensor} (env : Capabilities tensor)
    (pdf_path : text) (pages : list text) :
  open_pages env pdf_path = Some pages ->
  extract_page_sections env pdf_path
  = Some (page_unit (basename pdf_path)
            <$> filter (fun np => ~ blank np.2) (numbered pages))
  /\ (forall t1 b2 t3,
        pages = [t1; b2; t3] -> ~ blank t1 -> blank b2 -> ~ blank t3 ->
        exists u1 u3,
          extract_page_sections env pdf_path = Some [u1; u3]
          /\ sec_page u1 = 1 /\ sec_page u3 = 3
          /\ sec_text u1 = strip t1 /\ sec_text u3 = strip t3).
Proof.
  intros Hopen. unfold extract_page_sections. rewrite Hopen. simpl.
  rewrite extract_pages_filter. split; [done|].
  intros t1 b2 t3 -> H1 H2 H3. simpl.
  rewrite !filter_cons, filter_nil. simpl.
  rewrite (decide_True _ _ H1), (decide_False (P := ¬ blank b2)) by tauto.
  rewrite (decide_True _ _ H3). simpl. eauto 10.
Qed.

Lemma extract_page_sections_units_witness :
  open_pages (demo_env demo_files stable_argsort) (str "pdfs/guide.pdf")
  = Some [str "Plan the trip. Book early!  Pack light.
"; str "  
 "; str "Visit the old town."]
  /\ extract_page_sections (demo_env demo_files stable_argsort)
       (str "pdfs/guide.pdf")
     = Some [ {| sec_document := str "guide.pdf"; sec_page := 1;
                 sec_title := str "Page 1";
                 sec_text := str "Plan the trip. Book early!  Pack light." |};
              {| sec_document := str "guide.pdf"; sec_page := 3;
                 sec_title := str "Page 3";
                 sec_text := str "Visit the old town." |} ].
Proof.
  split; [reflexivity|].
  destruct (extract_page_sections_units (demo_env demo_files stable_argsort)
              (str "pdfs/guide.pdf") _ eq_refl) as [H _].
  rewrite H. vm_compute. reflexivity.
Defined.

(** ** The insertion sort meets the contract of [argsort] *)

Section InsertionSort.
Variable ahead : Q -> Q -> bool.
Variable R : relation (nat * Q).
Hypothesis R_trans : Transitive R.

Lemma insert_by_perm x l : insert_by ahead x l ≡ₚ x :: l.
Proof.
  induction l as [|y l IH]; simpl; [done|].
  destruct (ahead x.2 y.2); [done|]. by rewrite IH, Permutation_swap.
Qed.

Lemma sort_by_perm l : foldr (insert_by ahead) [] l ≡ₚ l.
Proof.
  induction l as [|x l IH]; simpl; [done|]. by rewrite insert_by_perm, IH.
Qed.

Lemma insert_by_sorted x l :
  StronglySorted R l -> Forall (placeable ahead R x) l ->
  StronglySorted R (insert_by ahead x l).
Proof.
  induction 1 as [|y l Hl IH Hy]; intros Hx; simpl.
  - repeat constructor.
  - apply Forall_cons in Hx as [[Hxy Hyx] Hx].
    destruct (ahead x.2 y.2) eqn:Ha.
    + constructor; [by constructor|].
      constructor; [by apply Hxy|].
      eapply Forall_impl; [exact Hy|]. intros z Hz.
      by transitivity y; [apply Hxy|].
    + constructor; [by apply IH|].
      rewrite insert_by_perm. constructor; [by apply Hyx|done].
Qed.

Lemma sort_by_sorted l :
  StronglySorted (placeable ahead R) l ->
  StronglySorted R (foldr (insert_by ahead) [] l).
Proof.
  induction 1 as [|x l Hl IH Hx]; simpl; [constructor|].
  apply insert_by_sorted; [done|]. by rewrite sort_by_perm.
Qed.
End InsertionSort.

Lemma StronglySorted_lookup {A} (R : relation A) l a b x y :
  StronglySorted R l -> a < b -> l !! a = Some x -> l !! b = Some y -> R x y.
Proof.
  intros Hl. revert a b. induction Hl as [|z l Hl IH Hz]; intros a b Hab Ha Hb.
  - done.
  - destruct b as [|b]; [lia|]. destruct a as [|a]; simpl in *.
    + injection Ha as ->. rewrite Forall_forall in Hz. apply Hz.
      by eapply list_elem_of_lookup_2.
    + apply (IH a b); [lia|done..].
Qed.

Lemma StronglySorted_weaken {A} (R1 R2 : relation A) l :
  (forall x y, R1 x y -> R2 x y) -> StronglySorted R1 l -> StronglySorted R2 l.
Proof.
  intros H. induction 1 as [|x l Hl IH Hx]; constructor; [done|].
  eapply Forall_impl; [exact Hx|]. intros y. apply H.
Qed.

Lemma enumerate_lookup scores a i s :
  enumerate scores !! a = Some (i, s) <-> i = a /\ scores !! a = Some s.
Proof.
  unfold enumerate. rewrite lookup_zip_Some. simpl. rewrite lookup_seq.
  split; [intros [[-> _] ?]; done|].
  intros [-> Hs]. repeat split; [|done]. by eapply lookup_lt_Some.
Qed.

Lemma elem_of_enumerate scores i s :
  (i, s) ∈ enumerate scores <-> scores !! i = Some s.
Proof.
  rewrite list_elem_of_lookup. split.
  - intros [a [-> Hs]%enumerate_lookup]. done.
  - intros Hs. exists i. by apply enumerate_lookup.
Qed.

Lemma enumerate_fst scores : (enumerate scores).*1 = seq 0 (length scores).
Proof. unfold enumerate. apply fst_zip. by rewrite length_seq. Qed.

Lemma enumerate_increasing scores :
  StronglySorted (fun x y : nat * Q => x.1 < y.1) (enumerate scores).
Proof.
  unfold enumerate. generalize 0 as j.
  induction scores as [|s scores IH]; intros j; simpl; constructor.
  - apply IH.
  - apply Forall_forall. intros [k t] Hk. simpl.
    apply elem_of_zip_l, elem_of_seq in Hk. lia.
Qed.

Lemma argsort_by_perm ahead scores :
  argsort_by ahead scores ≡ₚ seq 0 (length scores).
Proof.
  unfold argsort_by. by rewrite sort_by_perm, enumerate_fst.
Qed.

(** The entry at a position of the sorted list carries the score of its
    index. *)
Lemma argsort_by_lookup ahead scores a i :
  argsort_by ahead scores !! a = Some i ->
  exists s, foldr (insert_by ahead) [] (enumerate scores) !! a = Some (i, s)
            /\ scores !! i = Some s.
Proof.
  unfold argsort_by. rewrite list_lookup_fmap.
  destruct (foldr _ _ _ !! a) as [[i' s]|] eqn:Ha; [|done].
  simpl. intros [= ->]. exists s. split; [done|].
  apply elem_of_enumerate. rewrite <- (sort_by_perm ahead).
  by eapply list_elem_of_lookup_2.
Qed.

#[local] Instance score_ge_trans : Transitive score_ge.
Proof. intros x y z Hxy Hyz. unfold score_ge in *. by eapply Qle_trans. Qed.

#[local] Instance score_ge_stable_trans : Transitive score_ge_stable.
Proof.
  intros x y z [Hxy Ixy] [Hyz Iyz]. split; [by eapply Qle_trans|].
  intros Hxz. rewrite Hxz in Hxy.
  assert (y.2 == z.2)%Q as Hy by (by apply Qle_antisym).
  assert (x.2 == y.2)%Q as Hx by (by rewrite Hy).
  specialize (Ixy Hx). specialize (Iyz Hy). lia.
Qed.

Lemma Qle_bool_false x y : Qle_bool x y = false -> (y < x)%Q.
Proof.
  intros H. apply Qnot_le_lt. rewrite <- Qle_bool_iff. congruence.
Qed.

Lemma argsort_by_descending ahead scores :
  (forall x y, ahead x y = true -> (y <= x)%Q) ->
  (forall x y, ahead x y = false -> (x <= y)%Q) ->
  descending scores (argsort_by ahead scores).
Proof.
  intros Ht Hf a b i j si sj Hab Ha Hb Hi Hj.
  apply argsort_by_lookup in Ha as (si' & Ha & Hi').
  apply argsort_by_lookup in Hb as (sj' & Hb & Hj').
  assert (si' = si) as -> by congruence.
  assert (sj' = sj) as -> by congruence.
  assert (StronglySorted score_ge
            (foldr (insert_by ahead) [] (enumerate scores))) as Hs.
  { apply sort_by_sorted; [apply _|].
    generalize (enumerate scores). intros l.
    induction l as [|x l IH]; constructor; [done|].
    apply Forall_forall. intros y _. split; intros H.
    - by apply Ht.
    - by apply Hf. }
  apply (StronglySorted_lookup _ _ a b _ _ Hs Hab Ha Hb).
Qed.

Lemma stable_argsort_ok : stable_argsort_contract stable_argsort.
Proof.
  intros scores. split; [split|].
  - apply argsort_by_perm.
  - apply argsort_by_descending; intros x y H.
    + by apply Qle_bool_iff.
    + by apply Qlt_le_weak, Qle_bool_false.
  - intros a b i j Ha Hb Hij (si & sj & Hi & Hj & Heq).
    apply argsort_by_lookup in Ha as (si' & Ha & Hi').
    apply argsort_by_lookup in Hb as (sj' & Hb & Hj').
    assert (si' = si) as -> by congruence.
    assert (sj' = sj) as -> by congruence.
    assert (StronglySorted score_ge_stable
              (foldr (insert_by (fun x y => Qle_bool y x)) []
                 (enumerate scores))) as Hs.
    { apply sort_by_sorted; [apply _|].
      eapply StronglySorted_weaken; [|apply enumerate_increasing].
      intros x y Hxy. split; intros H; split.
      - by apply Qle_bool_iff.
      - done.
      - by apply Qlt_le_weak, Qle_bool_false.
      - intros Heq'. apply Qle_bool_false in H. rewrite Heq' in H.
        by apply Qlt_irrefl in H. }
    destruct (decide (a < b)) as [|Hnlt]; [done|].
    destruct (decide (a = b)) as [->|Hne].
    { rewrite Ha in Hb. injection Hb as -> _. lia. }
    assert (b < a) as Hba by lia.
    destruct (StronglySorted_lookup _ _ b a _ _ Hs Hba Hb Ha) as [_ Hord].
    simpl in Hord. symmetry in Heq. specialize (Hord Heq). lia.
Qed.

Lemma stable_argsort_contract_plain argsort :
  stable_argsort_contract argsort -> argsort_contract argsort.
Proof. intros H scores. apply H. Qed.

(** ** Similarity ranker *)

Lemma argsort_length argsort scores :
  argsort_contract argsort -> length (argsort scores) = length scores.
Proof.
  intros H. destruct (H scores) as [Hp _].
  by rewrite (Permutation_length Hp), length_seq.
Qed.

Lemma rank_top_prefix argsort scores k :
  exists n, rank_top argsort scores k = take n (argsort scores).
Proof.
  unfold rank_top, py_slice_to. destruct (0 <=? k)%Z; eauto.
Qed.

Lemma take_descending scores out n :
  descending scores out -> descending scores (take n out).
Proof.
  intros H a b i j si sj Hab [Ha _]%lookup_take_Some [Hb _]%lookup_take_Some.
  by apply (H a b).
Qed.

(** C1: when the sort meets the contract of [argsort], the ranker applied
    to [N >= 1] scores with a count [K >= 1] returns [min K N] indices,
    all distinct, all below [N], with scores never increasing along the
    ranking. *)
Theorem rank_top_spec (argsort : list Q -> list nat) (scores : list Q) (k : Z) :
  argsort_contract argsort -> scores <> [] -> (1 <= k)%Z ->
  length (rank_top argsort scores k) = Nat.min (Z.to_nat k) (length scores)
  /\ NoDup (rank_top argsort scores k)
  /\ Forall (fun i => i < length scores) (rank_top argsort scores k)
  /\ descending scores (rank_top argsort scores k).
Proof.
  intros Hc _ Hk. destruct (Hc scores) as [Hp Hd].
  unfold rank_top, py_slice_to.
  replace (0 <=? k)%Z with true by (symmetry; apply Z.leb_le; lia).
  assert (NoDup (argsort scores)) as Hnd by (rewrite Hp; apply NoDup_seq).
  repeat split.
  - by rewrite length_take, argsort_length.
  - eapply sublist_NoDup; [done|apply sublist_take].
  - apply Forall_forall. intros i Hi.
    apply elem_of_take in Hi as (a & Ha & _).
    apply list_elem_of_lookup_2 in Ha. rewrite Hp in Ha.
    apply elem_of_seq in Ha. lia.
  - by apply take_descending.
Qed.

Lemma rank_top_spec_witness :
  argsort_contract stable_argsort
  /\ [1#2; 9#10; 1#2; 1#10]%Q <> []
  /\ (1 <= 3)%Z
  /\ rank_top stable_argsort [1#2; 9#10; 1#2; 1#10]%Q 3 = [1; 0; 2]
  /\ length (rank_top stable_argsort [1#2; 9#10; 1#2; 1#10]%Q 3)
     = Nat.min (Z.to_nat 3) (length [1#2; 9#10; 1#2; 1#10]%Q)
  /\ NoDup (rank_top stable_argsort [1#2; 9#10; 1#2; 1#10]%Q 3)
  /\ Forall (fun i => i < length [1#2; 9#10; 1#2; 1#10]%Q)
       (rank_top stable_argsort [1#2; 9#10; 1#2; 1#10]%Q 3)
  /\ descending [1#2; 9#10; 1#2; 1#10]%Q
       (rank_top stable_argsort [1#2; 9#10; 1#2; 1#10]%Q 3).
Proof.
  split; [apply stable_argsort_contract_plain, stable_argsort_ok|].
  split; [discriminate|]. split; [lia|]. split; [reflexivity|].
  apply (rank_top_spec stable_argsort [1#2; 9#10; 1#2; 1#10]%Q 3);
    [apply stable_argsort_contract_plain, stable_argsort_ok | discriminate | lia].
Defined.

(** C4 as stated fails for a negative count: [ranked[:-1]] drops the last
    index only. *)
Lemma negative_count_counterexample :
  argsort_contract stable_argsort
  /\ (-1 <= 0)%Z
  /\ rank_top stable_argsort [9#10; 1#2; 1#10]%Q (-1) = [0; 1]
  /\ rank_top stable_argsort [9#10; 1#2; 1#10]%Q (-1) <> [].
Proof.
  split; [apply stable_argsort_contract_plain, stable_argsort_ok|].
  split; [lia|]. split; [reflexivity|]. discriminate.
Qed.

(** C4, amended: a count of 0 gives an empty ranking; a negative count
    [K] gives the first [N - |K|] indices of the descending order (none
    when [N <= |K|]), so the ranking is empty exactly when [N <= |K|]. *)
Theorem rank_top_nonpositive (argsort : list Q -> list nat) (scores : list Q)
    (k : Z) :
  argsort_contract argsort -> (k <= 0)%Z ->
  rank_top argsort scores k
  = (if decide (k = 0%Z) then []
     else take (length scores - Z.to_nat (- k)) (argsort scores))
  /\ (rank_top argsort scores k = []
      <-> k = 0%Z \/ length scores <= Z.to_nat (- k)).
Proof.
  intros Hc Hk. pose proof (argsort_length argsort scores Hc) as Hlen.
  unfold rank_top, py_slice_to. destruct (decide (k = 0%Z)) as [->|Hne].
  - simpl. split; [done|]. split; [by left|done].
  - replace (0 <=? k)%Z with false by (symmetry; apply Z.leb_gt; lia).
    rewrite Hlen. split; [done|]. split.
    + intros Hnil. right. apply (f_equal length) in Hnil.
      rewrite length_take, Hlen in Hnil. simpl in Hnil. lia.
    + intros [?|Hle]; [done|].
      by replace (length scores - Z.to_nat (- k)) with 0 by lia.
Qed.

Lemma rank_top_nonpositive_witness :
  argsort_contract stable_argsort
  /\ (-2 <= 0)%Z
  /\ rank_top stable_argsort [1#10; 9#10; 1#2]%Q (-2)
     = take (length [1#10; 9#10; 1#2]%Q - Z.to_nat (- -2))
         (stable_argsort [1#10; 9#10; 1#2]%Q)
  /\ rank_top stable_argsort [1#10; 9#10; 1#2]%Q (-2) = [1].
Proof.
  split; [apply stable_argsort_contract_plain, stable_argsort_ok|].
  split; [lia|].
  split; [|reflexivity].
  apply (rank_top_nonpositive stable_argsort [1#10; 9#10; 1#2]%Q (-2));
    [apply stable_argsort_contract_plain, stable_argsort_ok | lia].
Defined.

(** ** Pipeline *)

Section PipelineFacts.
Context {tensor : Type}.
Variable env : Capabilities tensor.

Lemma collect_sections_app pdfdir docs1 docs2 :
  collect_sections env pdfdir (docs1 ++ docs2)
  = (secs1 ← collect_sections env pdfdir docs1;
     secs2 ← collect_sections env pdfdir docs2;
     Some (secs1 ++ secs2)).
Proof.
  induction docs1 as [|fn docs1 IH]; simpl.
  - by destruct (collect_sections env pdfdir docs2).
  - destruct (path_exists env (path_join pdfdir fn)); [|done].
    rewrite IH.
    destruct (extract_page_sections env (path_join pdfdir fn)); simpl; [|done].
    destruct (collect_sections env pdfdir docs1); simpl; [|done].
    destruct (collect_sections env pdfdir docs2); simpl; [|done].
    by rewrite app_assoc.
Qed.

Lemma collect_sections_missing pdfdir docs :
  Forall (fun fn => path_exists env (path_join pdfdir fn) = false) docs ->
  collect_sections env pdfdir docs = Some [].
Proof. induction 1 as [|fn docs Hfn _ IH]; simpl; [done|]. by rewrite Hfn. Qed.

Lemma collect_sections_skip pdfdir before fn after :
  path_exists env (path_join pdfdir fn) = false ->
  collect_sections env pdfdir (before ++ fn :: after)
  = collect_sections env pdfdir (before ++ after).
Proof.
  intros Hfn. rewrite !collect_sections_app. simpl. by rewrite Hfn.
Qed.

Lemma collect_sections_nonblank pdfdir docs all_secs :
  collect_sections env pdfdir docs = Some all_secs ->
  Forall (fun u => ~ blank (sec_text u)) all_secs.
Proof.
  revert all_secs. induction docs as [|fn docs IH]; intros all_secs; simpl.
  - intros [= <-]. constructor.
  - destruct (path_exists env (path_join pdfdir fn)); [|apply IH].
    unfold extract_page_sections.
    destruct (open_pages env (path_join pdfdir fn)) as [pages|]; simpl; [|done].
    destruct (collect_sections env pdfdir docs) as [more|]; simpl; [|done].
    intros [= <-]. apply Forall_app. split; [|by apply IH].
    apply extract_pages_nonblank.
Qed.
End PipelineFacts.

(** C6 fails on the code: a document whose resolved path does not exist
    is skipped and adds no unit, and the units collected are those of the
    documents listed before it followed by those of the documents listed
    after it; but when these give no unit, the empty list of texts goes to
    the encoder and to the similarity, and when these have no answer for an
    empty batch the run returns no result: the run is aborted. *)
Theorem missing_document_run_aborted {tensor} (env : Capabilities tensor)
    (args : arguments) (cfg : config) (before after : list text) (fn : text) :
  path_exists env (path_join (pdf_dir args) fn) = false ->
  collect_sections env (pdf_dir args) [fn] = Some []
  /\ collect_sections env (pdf_dir args) (before ++ fn :: after)
     = (secs1 ← collect_sections env (pdf_dir args) before;
        secs2 ← collect_sections env (pdf_dir args) after;
        Some (secs1 ++ secs2))
  /\ (collect_sections env (pdf_dir args) (before ++ after) = Some [] ->
      (forall q_emb, scores_of env q_emb [] = None) ->
      main_body env args (with_docs cfg (before ++ fn :: after)) = None).
Proof.
  intros Hfn. split; [simpl; by rewrite Hfn|].
  split; [by rewrite collect_sections_skip, collect_sections_app|].
  intros Hnone Hempty. unfold main_body. simpl.
  destruct (encode_query env _) as [q_emb|]; simpl; [|done].
  rewrite collect_sections_skip, Hnone by done. simpl.
  specialize (Hempty q_emb). unfold scores_of in Hempty.
  destruct (encode_texts env []) as [embs|]; simpl in *; [|done].
  by rewrite Hempty.
Qed.

Lemma missing_document_run_aborted_witness :
  path_exists (demo_env demo_files stable_argsort)
    (path_join (pdf_dir demo_args) (str "gone.pdf")) = false
  /\ collect_sections (demo_env demo_files stable_argsort)
       (pdf_dir demo_args) ([] ++ str "gone.pdf" :: []) = Some []
  /\ main_body (demo_env demo_files stable_argsort) demo_args
       (with_docs demo_cfg ([] ++ str "gone.pdf" :: [])) = None.
Proof.
  split; [reflexivity|]. split; [reflexivity|].
  destruct (missing_document_run_aborted (demo_env demo_files stable_argsort)
              demo_args demo_cfg [] [] (str "gone.pdf") eq_refl)
    as (_ & _ & H).
  apply H; [reflexivity|]. intros q_emb. reflexivity.
Defined.

(** C5 fails on the code: when none of the listed documents exists,
    [main] hands the empty list of texts to the encoder and to the
    similarity, and when these have no answer for an empty batch the run
    stops there and returns no result. *)
Theorem main_no_document_found {tensor} (env : Capabilities tensor)
    (args : arguments) (cfg : config) :
  Forall (fun fn => path_exists env (path_join (pdf_dir args) fn) = false)
    (default [] (cfg_documents cfg)) ->
  (forall q_emb, scores_of env q_emb [] = None) ->
  main_body env args cfg = None.
Proof.
  intros Hmissing Hempty. unfold main_body.
  destruct (encode_query env _) as [q_emb|]; simpl; [|done].
  rewrite collect_sections_missing by done. simpl.
  specialize (Hempty q_emb). unfold scores_of in Hempty.
  destruct (encode_texts env []) as [embs|]; simpl in *; [|done].
  by rewrite Hempty.
Qed.

(** What the run would return with an encoder that answers an empty batch
    with no score. *)
Lemma main_no_document_found_graceful {tensor} (env : Capabilities tensor)
    (args : arguments) (cfg : config) (q_emb : tensor) :
  Forall (fun fn => path_exists env (path_join (pdf_dir args) fn) = false)
    (default [] (cfg_documents cfg)) ->
  argsort_contract (argsort_desc env) ->
  encode_query env (default [] (cfg_persona cfg) ++ str ". "
                    ++ default [] (cfg_job cfg)) = Some q_emb ->
  scores_of env q_emb [] = Some [] ->
  extracted_sections <$> main_body env args cfg = Some [].
Proof.
  intros Hmissing Hsort Hq Hscores. unfold main_body. rewrite Hq. simpl.
  rewrite collect_sections_missing by done. simpl.
  unfold scores_of in Hscores.
  destruct (encode_texts env []) as [embs|]; simpl in *; [|done].
  rewrite Hscores. simpl.
  destruct (rank_top_prefix (argsort_desc env) [] (top_sections args))
    as [n Hn].
  assert (argsort_desc env [] = []) as Hnil.
  { destruct (Hsort []) as [Hp _]. simpl in Hp. by apply Permutation_nil_r. }
  rewrite Hn, Hnil, take_nil. done.
Qed.

Lemma demo_env_empty_batch files argsort q_emb :
  scores_of (demo_env files argsort) q_emb [] = None.
Proof. reflexivity. Qed.

Lemma main_no_document_found_witness :
  Forall (fun fn => path_exists (demo_env demo_files stable_argsort)
                      (path_join (pdf_dir demo_args) fn) = false)
    (default [] (cfg_documents demo_cfg_missing))
  /\ main_body (demo_env demo_files stable_argsort) demo_args demo_cfg_missing = None.
Proof.
  assert (Forall (fun fn => path_exists (demo_env demo_files stable_argsort)
                              (path_join (pdf_dir demo_args) fn) = false)
            (default [] (cfg_documents demo_cfg_missing))) as H
    by (repeat constructor).
  split; [exact H|].
  apply (main_no_document_found _ _ _ H), demo_env_empty_batch.
Defined.

(** C9 as stated fails: a configuration without [persona] is loaded, the
    persona is taken to be the empty string, and the sections are ranked. *)
Lemma missing_field_counterexample :
  load_config (demo_env demo_files stable_argsort)
    (config_file demo_args_no_persona) = Some demo_cfg_no_persona
  /\ cfg_persona demo_cfg_no_persona = None
  /\ main (demo_env demo_files stable_argsort) demo_args_no_persona
     = Some {| res_metadata :=
                 {| md_documents := [str "gone.pdf"; str "guide.pdf"];
                    md_persona := str "";
                    md_job_to_be_done := str "Plan a trip";
                    md_timestamp := str "2025-07-28T10:15:30.000000Z" |};
               extracted_sections := demo_out_sections |}.
Proof.
  split; [reflexivity|]. split; [reflexivity|]. vm_compute. reflexivity.
Qed.

(** C9, amended: [load_config] hands a configuration with [documents],
    [persona] or [job] absent on to [main] as it is; the run is the run of
    the configuration that gives the absent fields as the empty list and
    the empty string, and the metadata of the result carries these
    values. *)
Theorem main_missing_fields_default {tensor} (env : Capabilities tensor)
    (args : arguments) (cfg : config) :
  load_config env (config_file args) = Some cfg ->
  main env args = main_body env args cfg
  /\ main_body env args cfg = main_body env args (with_defaults cfg)
  /\ (forall res,
        main env args = Some res ->
        md_documents (res_metadata res) = default [] (cfg_documents cfg)
        /\ md_persona (res_metadata res) = default [] (cfg_persona cfg)
        /\ md_job_to_be_done (res_metadata res) = default [] (cfg_job cfg)).
Proof.
  intros Hload. unfold main. rewrite Hload. simpl.
  split; [done|]. split; [done|].
  intros res. unfold main_body.
  destruct (encode_query env _) as [q_emb|]; simpl; [|done].
  destruct (collect_sections env _ _) as [all_secs|]; simpl; [|done].
  destruct (encode_texts env _) as [sec_embs|]; simpl; [|done].
  destruct (cos_sim_row env _ _) as [scores|]; simpl; [|done].
  destruct (rank_sections env _ _ _ _ _) as [out_secs|]; simpl; [|done].
  by intros [= <-].
Qed.

Lemma main_missing_fields_default_witness :
  load_config (demo_env demo_files stable_argsort)
    (config_file demo_args_no_persona) = Some demo_cfg_no_persona
  /\ main (demo_env demo_files stable_argsort) demo_args_no_persona
     = main_body (demo_env demo_files stable_argsort) demo_args_no_persona
         (with_defaults demo_cfg_no_persona).
Proof.
  split; [reflexivity|].
  destruct (main_missing_fields_default (demo_env demo_files stable_argsort)
              demo_args_no_persona demo_cfg_no_persona eq_refl) as (H1 & H2 & _).
  by rewrite H1, H2.
Defined.

Lemma rank_top_length argsort scores k :
  argsort_contract argsort -> (1 <= k)%Z ->
  length (rank_top argsort scores k) = Nat.min (Z.to_nat k) (length scores).
Proof.
  intros Hc Hk. unfold rank_top, py_slice_to.
  replace (0 <=? k)%Z with true by (symmetry; apply Z.leb_le; lia).
  by rewrite length_take, argsort_length.
Qed.

Section Analysis.
Context {tensor : Type}.
Variable env : Capabilities tensor.
Hypothesis argsort_ok : argsort_contract (argsort_desc env).
Hypothesis scoring_ok : scoring_contract env.

Lemma sub_entries_spec sents page top_sidx subs :
  sub_entries sents page top_sidx = Some subs ->
  Forall2 (fun si e => sents !! si = Some (refined_text e)
                       /\ sub_page_number e = page) top_sidx subs.
Proof.
  revert subs. induction top_sidx as [|si rest IH]; intros subs; simpl.
  - intros [= <-]. constructor.
  - destruct (sents !! si) as [s|] eqn:Hs; simpl; [|done].
    destruct (sub_entries sents page rest) as [more|]; simpl; [|done].
    intros [= <-]. constructor; [done|]. by apply IH.
Qed.

Lemma analyse_section_spec q_emb k rank sec out :
  (1 <= k)%Z ->
  analyse_section env q_emb k rank sec = Some out ->
  analysed k sec out /\ importance_rank out = rank.
Proof.
  intros Hk. unfold analyse_section.
  destruct (encode_texts env _) as [embs|] eqn:He; simpl; [|done].
  destruct (cos_sim_row env q_emb embs) as [scores|] eqn:Hs; simpl; [|done].
  destruct (sub_entries _ _ _) as [subs|] eqn:Hsub; simpl; [|done].
  intros [= <-]. simpl.
  assert (length scores = length (split_sentences (sec_text sec))) as Hlen.
  { apply (scoring_ok q_emb). unfold scores_of. by rewrite He. }
  apply sub_entries_spec in Hsub.
  repeat split; try done; simpl.
  - rewrite <- (Forall2_length _ _ _ Hsub), <- Hlen.
    by apply rank_top_length.
  - apply Forall_forall. intros e He'.
    apply list_elem_of_lookup in He' as [a Ha].
    destruct (Forall2_lookup_r _ _ _ _ _ Hsub Ha) as (si & _ & Hsi & Hpage).
    split; [|done]. by eapply list_elem_of_lookup_2.
Qed.

Lemma rank_sections_spec q_emb k all_secs ranked : forall rank out_secs,
  (1 <= k)%Z ->
  rank_sections env q_emb k all_secs rank ranked = Some out_secs ->
  Forall2 (fun idx out => exists sec,
             all_secs !! idx = Some sec /\ analysed k sec out)
    ranked out_secs
  /\ importance_rank <$> out_secs = seq rank (length ranked).
Proof.
  induction ranked as [|idx rest IH]; intros rank out_secs Hk; simpl.
  - intros [= <-]. split; [constructor|done].
  - destruct (all_secs !! idx) as [sec|] eqn:Hsec; simpl; [|done].
    destruct (analyse_section env q_emb k rank sec) as [out|] eqn:Hout;
      simpl; [|done].
    destruct (rank_sections env q_emb k all_secs (S rank) rest)
      as [more|] eqn:Hmore; simpl; [|done].
    intros [= <-]. apply analyse_section_spec in Hout as [Hout Hrank]; [|done].
    apply IH in Hmore as [Hmore Hranks]; [|done].
    split; [constructor; eauto|]. rewrite fmap_cons, Hrank, Hranks. done.
Qed.
End Analysis.

(** C10: when the sort and the encoder meet their contracts and the count
    of top sentences is at least 1, every section of the result comes from
    a collected unit, whose document, page and title it carries; its
    [sub_section_analysis] is not empty, and every [refined_text] in it is
    not blank, is a run of consecutive characters of the text of that unit
    and carries its page number. *)
Theorem selected_sections_have_sentences {tensor} (env : Capabilities tensor)
    (args : arguments) (cfg : config) (res : result) :
  argsort_contract (argsort_desc env) -> scoring_contract env ->
  (1 <= top_sentences args)%Z ->
  main_body env args cfg = Some res ->
  exists all_secs,
    collect_sections env (pdf_dir args) (default [] (cfg_documents cfg))
    = Some all_secs
    /\ Forall (fun out =>
         sub_section_analysis out <> []
         /\ exists sec,
              sec ∈ all_secs
              /\ out_document out = sec_document sec
              /\ out_page_number out = sec_page sec
              /\ section_title out = sec_title sec
              /\ Forall (fun e =>
                   refined_text e <> [] /\ ~ blank (refined_text e)
                   /\ substring (refined_text e) (sec_text sec)
                   /\ sub_page_number e = sec_page sec)
                 (sub_section_analysis out))
       (extracted_sections res).
Proof.
  intros Hsort Hscore Hk. unfold main_body.
  destruct (encode_query env _) as [q_emb|]; simpl; [|done].
  destruct (collect_sections env _ _) as [all_secs|] eqn:Hall; simpl; [|done].
  destruct (encode_texts env _) as [sec_embs|]; simpl; [|done].
  destruct (cos_sim_row env _ _) as [scores|]; simpl; [|done].
  destruct (rank_sections env _ _ _ _ _) as [out_secs|] eqn:Hout; simpl; [|done].
  intros [= <-]. simpl. exists all_secs. split; [done|].
  apply rank_sections_spec in Hout as [Hout _]; [|done..].
  apply collect_sections_nonblank in Hall.
  apply Forall_forall. intros out Hin.
  apply list_elem_of_lookup in Hin as [a Ha].
  destruct (Forall2_lookup_r _ _ _ _ _ Hout Ha)
    as (idx & _ & sec & Hsec & Hd & Hp & Ht & Hlen & Hsubs).
  apply list_elem_of_lookup_2 in Hsec.
  assert (~ blank (sec_text sec)) as Hnb.
  { rewrite Forall_forall in Hall. by apply Hall. }
  split.
  - apply split_sentences_nonempty in Hnb.
    destruct (split_sentences (sec_text sec)); [done|].
    destruct (sub_section_analysis out); [|done]. simpl in Hlen. lia.
  - exists sec. repeat split; try done.
    eapply Forall_impl; [exact Hsubs|]. intros e [He Hpage]. simpl.
    apply split_sentences_substring in He as [Hne Hsub].
    repeat split; try done. intros Hnil. apply Hne. rewrite Hnil. constructor.
Qed.

Lemma demo_env_scoring files argsort :
  scoring_contract (demo_env files argsort).
Proof.
  intros q texts scores. unfold scores_of. simpl.
  destruct texts; simpl; [done|]. intros [= <-]. simpl. by rewrite length_fmap.
Qed.

Lemma selected_sections_have_sentences_witness :
  argsort_contract (argsort_desc (demo_env demo_files stable_argsort))
  /\ scoring_contract (demo_env demo_files stable_argsort)
  /\ (1 <= top_sentences demo_args)%Z
  /\ main_body (demo_env demo_files stable_argsort) demo_args demo_cfg
     = Some {| res_metadata :=
                 {| md_documents := [str "gone.pdf"; str "guide.pdf"];
                    md_persona := str "Traveller";
                    md_job_to_be_done := str "Plan a trip";
                    md_timestamp := str "2025-07-28T10:15:30.000000Z" |};
               extracted_sections := demo_out_sections |}
  /\ exists all_secs,
       collect_sections (demo_env demo_files stable_argsort)
         (pdf_dir demo_args) (default [] (cfg_documents demo_cfg))
       = Some all_secs
       /\ Forall (fun out =>
            sub_section_analysis out <> []
            /\ exists sec,
                 sec ∈ all_secs
                 /\ out_document out = sec_document sec
                 /\ out_page_number out = sec_page sec
                 /\ section_title out = sec_title sec
                 /\ Forall (fun e =>
                      refined_text e <> [] /\ ~ blank (refined_text e)
                      /\ substring (refined_text e) (sec_text sec)
                      /\ sub_page_number e = sec_page sec)
                    (sub_section_analysis out))
          demo_out_sections.
Proof.
  assert (argsort_contract (argsort_desc (demo_env demo_files stable_argsort)))
    as Hsort by apply stable_argsort_contract_plain, stable_argsort_ok.
  assert (main_body (demo_env demo_files stable_argsort) demo_args demo_cfg
          = Some {| res_metadata :=
                      {| md_documents := [str "gone.pdf"; str "guide.pdf"];
                         md_persona := str "Traveller";
                         md_job_to_be_done := str "Plan a trip";
                         md_timestamp := str "2025-07-28T10:15:30.000000Z" |};
                    extracted_sections := demo_out_sections |}) as Hmain
    by (vm_compute; reflexivity).
  split; [exact Hsort|]. split; [apply demo_env_scoring|].
  assert (1 <= top_sentences demo_args)%Z as Hk
    by (unfold demo_args; simpl; lia).
  split; [exact Hk|]. split; [exact Hmain|].
  apply (selected_sections_have_sentences _ _ _ _ Hsort
           (demo_env_scoring _ _) Hk Hmain).
Defined.

(** ** The run completes on a non-empty collection *)

Lemma rank_top_valid argsort scores k :
  argsort_contract argsort ->
  Forall (fun i => i < length scores) (rank_top argsort scores k).
Proof.
  intros Hc. destruct (Hc scores) as [Hp _].
  destruct (rank_top_prefix argsort scores k) as [n ->].
  apply Forall_forall. intros i (a & Ha & _)%elem_of_take.
  apply list_elem_of_lookup_2 in Ha. rewrite Hp in Ha.
  apply elem_of_seq in Ha. lia.
Qed.

Section Progress.
Context {tensor : Type}.
Variable env : Capabilities tensor.
Hypothesis argsort_ok : argsort_contract (argsort_desc env).
Hypothesis scoring_ok : scoring_contract env.
Hypothesis scoring_total :
  forall q_emb texts, texts <> [] -> is_Some (scores_of env q_emb texts).

Lemma sub_entries_total sents page top_sidx :
  Forall (fun si => si < length sents) top_sidx ->
  is_Some (sub_entries sents page top_sidx).
Proof.
  induction 1 as [|si rest Hsi _ IH]; simpl; [done|].
  apply lookup_lt_is_Some_2 in Hsi as [s ->]. simpl.
  by destruct IH as [more ->].
Qed.

Lemma analyse_section_total q_emb k rank sec :
  ~ blank (sec_text sec) -> is_Some (analyse_section env q_emb k rank sec).
Proof.
  intros Hnb. apply split_sentences_nonempty in Hnb.
  unfold analyse_section.
  destruct (scoring_total q_emb _ Hnb) as [scores Hs].
  pose proof (scoring_ok _ _ _ Hs) as Hlen. unfold scores_of in Hs.
  destruct (encode_texts env _) as [embs|]; simpl in *; [|done].
  rewrite Hs. simpl.
  destruct (sub_entries_total (split_sentences (sec_text sec)) (sec_page sec)
              (rank_top (argsort_desc env) scores k)) as [subs ->]; [|done].
  rewrite <- Hlen. by apply rank_top_valid.
Qed.

Lemma rank_sections_total q_emb k all_secs ranked : forall rank,
  Forall (fun u => ~ blank (sec_text u)) all_secs ->
  Forall (fun idx => idx < length all_secs) ranked ->
  is_Some (rank_sections env q_emb k all_secs rank ranked).
Proof.
  intros rank Hall Hranked. revert rank.
  induction Hranked as [|idx rest Hidx _ IH]; intros rank; simpl; [done|].
  apply lookup_lt_is_Some_2 in Hidx as [sec Hsec]. rewrite Hsec. simpl.
  destruct (analyse_section_total q_emb k rank sec) as [out ->].
  { rewrite Forall_forall in Hall. apply Hall.
    by eapply list_elem_of_lookup_2. }
  simpl. by destruct (IH (S rank)) as [more ->].
Qed.

(** X16: with a query the encoder accepts and at least one unit collected,
    [main] returns a result; its sections are ranked 1, 2, ... and, for a
    count [K >= 1] over [N] units, there are [min K N] of them. *)
Lemma main_runs args cfg all_secs :
  is_Some (encode_query env
             (default [] (cfg_persona cfg) ++ str ". "
              ++ default [] (cfg_job cfg))) ->
  collect_sections env (pdf_dir args) (default [] (cfg_documents cfg))
  = Some all_secs ->
  all_secs <> [] ->
  (1 <= top_sections args)%Z -> (1 <= top_sentences args)%Z ->
  exists res,
    main_body env args cfg = Some res
    /\ importance_rank <$> extracted_sections res
       = seq 1 (Nat.min (Z.to_nat (top_sections args)) (length all_secs)).
Proof.
  intros [q_emb Hq] Hall Hne Hk1 Hk2. unfold main_body. rewrite Hq, Hall. simpl.
  assert (sec_text <$> all_secs <> []) as Hne' by (by destruct all_secs).
  destruct (scoring_total q_emb _ Hne') as [scores Hs].
  pose proof (scoring_ok _ _ _ Hs) as Hlen. rewrite length_fmap in Hlen.
  unfold scores_of in Hs.
  destruct (encode_texts env _) as [embs|]; simpl in *; [|done].
  rewrite Hs. simpl.
  destruct (rank_sections_total q_emb (top_sentences args) all_secs
              (rank_top (argsort_desc env) scores (top_sections args)) 1)
    as [out_secs Hout].
  { by eapply collect_sections_nonblank. }
  { rewrite <- Hlen. by apply rank_top_valid. }
  rewrite Hout. simpl. eexists. split; [done|]. simpl.
  apply rank_sections_spec in Hout as [_ Hranks]; [|done..].
  by rewrite Hranks, rank_top_length, Hlen.
Qed.
End Progress.

(** ** Sample evaluations *)

Example split_trailing_match :
  re_split (str "a.  b? ") = [str "a."; str "b?"; str ""]
  /\ split_sentences (str "a.  b? ") = [str "a."; str "b?"].
Proof. split; vm_compute; reflexivity. Qed.

Example split_needs_whitespace :
  split_sentences (str "v1.2 costs 3.50!really") = [str "v1.2 costs 3.50!really"].
Proof. vm_compute. reflexivity. Qed.

Example strip_page : strip (str "  Page  text
 ") = str "Page  text".
Proof. vm_compute. reflexivity. Qed.

Example path_join_basename :
  path_join (str "pdfs") (str "guide.pdf") = str "pdfs/guide.pdf"
  /\ path_join (str "pdfs/") (str "guide.pdf") = str "pdfs/guide.pdf"
  /\ path_join (str "pdfs") (str "/abs/guide.pdf") = str "/abs/guide.pdf"
  /\ basename (str "pdfs/sub/guide.pdf") = str "guide.pdf".
Proof. repeat split; vm_compute; reflexivity. Qed.

Example py_slice_to_cases :
  py_slice_to 2 [10; 20; 30] = [10; 20]
  /\ py_slice_to 7 [10; 20; 30] = [10; 20; 30]
  /\ py_slice_to 0 [10; 20; 30] = []
  /\ py_slice_to (-1) [10; 20; 30] = [10; 20]
  /\ py_slice_to (-5) [10; 20; 30] = [].
Proof. repeat split; reflexivity. Qed.

Example stable_argsort_sample :
  stable_argsort [1#2; 9#10; 1#2; 1#10]%Q = [1; 0; 2; 3].
Proof. vm_compute. reflexivity. Qed.

Example demo_run :
  extracted_sections <$> main (demo_env demo_files stable_argsort) demo_args
  = Some demo_out_sections.
Proof. vm_compute. reflexivity. Qed.

(** * Further properties of the code *)

(** ** Trimming *)

Lemma lstrip_starts s : starts_with_space (lstrip s) = false.
Proof.
  induction s as [|c s IH]; simpl; [done|].
  destruct (isspace c) eqn:Hc; [done|]. simpl. by rewrite Hc.
Qed.

Lemma lstrip_fix s : starts_with_space s = false -> lstrip s = s.
Proof. destruct s as [|c s]; simpl; [done|]. by intros ->. Qed.

Lemma ends_with_space_cons c s :
  s <> [] -> ends_with_space (c :: s) = ends_with_space s.
Proof. destruct s; [done|]. intros _. unfold ends_with_space. by rewrite last_cons_cons. Qed.

Lemma lstrip_ends s :
  ends_with_space s = false -> ends_with_space (lstrip s) = false.
Proof.
  induction s as [|c s IH]; simpl; [done|].
  destruct (isspace c) eqn:Hc; [|done].
  destruct s as [|d s]; [done|].
  rewrite ends_with_space_cons by done. apply IH.
Qed.

Lemma rstrip_ends s : ends_with_space (rstrip s) = false.
Proof.
  unfold ends_with_space, rstrip. rewrite last_reverse.
  pose proof (lstrip_starts (reverse s)) as H.
  by destruct (lstrip (reverse s)).
Qed.

Lemma strip_trimmed s : trimmed (strip s).
Proof.
  split; [apply lstrip_starts|]. apply lstrip_ends, rstrip_ends.
Qed.

Lemma trimmed_strip p : trimmed p -> strip p = p.
Proof.
  intros [Hs He]. unfold strip, rstrip.
  rewrite (lstrip_fix (reverse p)).
  - rewrite reverse_involutive. by apply lstrip_fix.
  - unfold ends_with_space in He. rewrite <- head_reverse in He.
    by destruct (reverse p).
Qed.

Lemma strip_substring s : substring (strip s) s.
Proof.
  assert (forall x, exists a, x = a ++ lstrip x) as Hl.
  { induction x as [|c x [a IH]]; simpl; [by exists []|].
    destruct (isspace c); [|by exists []].
    exists (c :: a). simpl. by rewrite <- IH. }
  unfold strip, rstrip.
  destruct (Hl (reverse s)) as [b Hb].
  destruct (Hl (reverse (lstrip (reverse s)))) as [a Ha].
  exists a, (reverse b).
  rewrite app_assoc, <- Ha, <- reverse_app, <- Hb. by rewrite reverse_involutive.
Qed.

(** ** Unit extractor: text and locators of the units *)

Lemma extract_pages_trimmed document pages : forall number,
  Forall (fun u => sec_text u <> [] /\ trimmed (sec_text u))
    (extract_pages document number pages).
Proof.
  induction pages as [|raw rest IH]; intros number; simpl; [constructor|].
  destruct (truthy (strip raw)) eqn:Ht; [|apply IH].
  constructor; [|apply IH]. simpl. split; [|apply strip_trimmed].
  by destruct (strip raw).
Qed.

Lemma extract_pages_locators document pages : forall number,
  StronglySorted lt (sec_page <$> extract_pages document number pages)
  /\ Forall (fun u => number < sec_page u <= number + length pages)
       (extract_pages document number pages).
Proof.
  induction pages as [|raw rest IH]; intros number; simpl.
  - split; constructor.
  - destruct (IH (S number)) as [Hs Hb].
    assert (Forall (fun u => number < sec_page u <= number + S (length rest))
              (extract_pages document (S number) rest)) as Hb'.
    { eapply Forall_impl; [exact Hb|]. simpl. intros u Hu. lia. }
    destruct (truthy (strip raw)); [|done].
    split.
    + rewrite fmap_cons. constructor; [done|]. simpl.
      apply Forall_fmap. eapply Forall_impl; [exact Hb|].
      simpl. intros u Hu. lia.
    + constructor; [simpl; lia|done].
Qed.

(** X1: the text of every unit is not empty and has no whitespace at either
    end: stripping it again changes nothing. *)
Theorem extract_page_sections_trimmed {tensor} (env : Capabilities tensor)
    (pdf_path : text) (units : list section) :
  extract_page_sections env pdf_path = Some units ->
  Forall (fun u => sec_text u <> [] /\ trimmed (sec_text u)
                   /\ strip (sec_text u) = sec_text u) units.
Proof.
  unfold extract_page_sections.
  destruct (open_pages env pdf_path) as [pages|]; simpl; [|done].
  intros [= <-].
  eapply Forall_impl; [apply extract_pages_trimmed|].
  simpl. intros u [Hne Ht]. repeat split; try apply Ht; [done|].
  by apply trimmed_strip.
Qed.

Lemma extract_page_sections_trimmed_witness :
  extract_page_sections (demo_env demo_files stable_argsort)
    (str "pdfs/guide.pdf")
  = Some [page_unit (str "guide.pdf")
            (1, str "Plan the trip. Book early!  Pack light.
");
          page_unit (str "guide.pdf") (3, str "Visit the old town.")]
  /\ Forall (fun u => sec_text u <> [] /\ trimmed (sec_text u)
                      /\ strip (sec_text u) = sec_text u)
       [page_unit (str "guide.pdf")
          (1, str "Plan the trip. Book early!  Pack light.
");
        page_unit (str "guide.pdf") (3, str "Visit the old town.")].
Proof.
  assert (extract_page_sections (demo_env demo_files stable_argsort)
            (str "pdfs/guide.pdf")
          = Some [page_unit (str "guide.pdf")
                    (1, str "Plan the trip. Book early!  Pack light.
");
                  page_unit (str "guide.pdf") (3, str "Visit the old town.")])
    as H by (vm_compute; reflexivity).
  split; [exact H|].
  exact (extract_page_sections_trimmed _ _ _ H).
Defined.

(** X2: the locators of the units of one document increase strictly and lie
    between 1 and the number of pages: no page gives two units and there
    are at most as many units as pages. *)
Theorem extract_page_sections_locators {tensor} (env : Capabilities tensor)
    (pdf_path : text) (pages : list text) (units : list section) :
  open_pages env pdf_path = Some pages ->
  extract_page_sections env pdf_path = Some units ->
  StronglySorted lt (sec_page <$> units)
  /\ Forall (fun u => 1 <= sec_page u <= length pages) units
  /\ length units <= length pages.
Proof.
  intros Hopen. unfold extract_page_sections. rewrite Hopen. simpl.
  intros [= <-].
  destruct (extract_pages_locators (basename pdf_path) pages 0) as [Hs Hb].
  split; [done|]. split.
  - eapply Forall_impl; [exact Hb|]. simpl. intros u Hu. lia.
  - rewrite extract_pages_filter.
    rewrite length_fmap.
    etransitivity; [apply length_filter|].
    rewrite length_zip, length_seq. lia.
Qed.

Lemma extract_page_sections_locators_witness :
  open_pages (demo_env demo_files stable_argsort) (str "pdfs/guide.pdf")
  = Some [str "Plan the trip. Book early!  Pack light.
"; str "  
 "; str "Visit the old town."]
  /\ sec_page <$> [page_unit (str "guide.pdf")
                     (1, str "Plan the trip. Book early!  Pack light.
");
                   page_unit (str "guide.pdf") (3, str "Visit the old town.")]
     = [1; 3]
  /\ StronglySorted lt
       (sec_page <$> [page_unit (str "guide.pdf")
                        (1, str "Plan the trip. Book early!  Pack light.
");
                      page_unit (str "guide.pdf")
                        (3, str "Visit the old town.")]).
Proof.
  split; [reflexivity|]. split; [reflexivity|].
  apply (extract_page_sections_locators (demo_env demo_files stable_argsort)
           (str "pdfs/guide.pdf") _ _ eq_refl).
  vm_compute. reflexivity.
Defined.

(** ** Sentence splitter: what the sentences keep of the text *)

Lemma visible_app s1 s2 : visible (s1 ++ s2) = visible s1 ++ visible s2.
Proof. apply filter_app. Qed.

Lemma visible_blank p : blank p -> visible p = [].
Proof.
  induction 1 as [|c p Hc _ IH]; [done|].
  unfold visible. rewrite filter_cons_False by congruence. exact IH.
Qed.

Lemma scan_visible s : forall skipping behind cur,
  visible (concat (re_split_scan skipping behind cur s))
  = visible (reverse cur ++ s).
Proof.
  induction s as [|c s IH]; intros skipping behind cur; simpl.
  - by rewrite !app_nil_r.
  - assert (forall b, visible (concat (re_split_scan false b (c :: cur) s))
                      = visible (reverse cur ++ c :: s)) as Hpush.
    { intros b. by rewrite IH, reverse_cons, <- app_assoc. }
    destruct (isspace c) eqn:Hc; [destruct skipping; [|destruct behind]|];
      try apply Hpush.
    + rewrite IH, !visible_app. f_equal.
      unfold visible. by rewrite filter_cons_False by congruence.
    + simpl. rewrite !visible_app, IH. f_equal. simpl.
      unfold visible. by rewrite filter_cons_False by congruence.
Qed.

(** X3: the sentences, put end to end, hold the visible characters of the
    text in their order: splitting loses whitespace only. *)
Theorem split_sentences_visible (s : text) :
  visible (concat (split_sentences s)) = visible s.
Proof.
  rewrite split_sentences_filter.
  change (visible s) with (visible (reverse [] ++ s)).
  rewrite <- (scan_visible s false false []). fold (re_split s).
  induction (re_split s) as [|p pieces IH]; [done|].
  rewrite filter_cons. destruct (decide (~ blank p)) as [Hp|Hp]; simpl.
  - by rewrite !visible_app, IH.
  - apply dec_stable in Hp. by rewrite IH, visible_app, (visible_blank p).
Qed.

Lemma ends_with_terminator_reverse cur :
  ends_with_terminator (reverse cur)
  = match cur with c :: _ => is_terminator c | [] => false end.
Proof. unfold ends_with_terminator. rewrite last_reverse. by destruct cur. Qed.

Lemma space_not_terminator c : isspace c = true -> is_terminator c = false.
Proof.
  intros Hc. destruct (is_terminator c) eqn:Ht; [|done].
  apply terminator_not_space in Ht. congruence.
Qed.

Lemma scan_terminated s : forall skipping behind cur,
  (skipping = true -> cur = []) ->
  behind = ends_with_terminator (reverse cur) ->
  exists init final,
    re_split_scan skipping behind cur s = init ++ [final]
    /\ Forall (fun p => ends_with_terminator p = true) init.
Proof.
  induction s as [|c s IH]; intros skipping behind cur Hsk Hb; simpl.
  - exists [], (reverse cur). by split.
  - assert (forall b, b = is_terminator c ->
              exists init final,
                re_split_scan false b (c :: cur) s = init ++ [final]
                /\ Forall (fun p => ends_with_terminator p = true) init)
      as Hpush.
    { intros b ->. apply IH; [done|]. by rewrite ends_with_terminator_reverse. }
    destruct (isspace c) eqn:Hc; [destruct skipping; [|destruct behind]|].
    + apply IH; [done|]. by rewrite (Hsk eq_refl).
    + destruct (IH true false []) as (init & final & -> & Hinit); [done..|].
      exists (reverse cur :: init), final. split; [done|]. by constructor.
    + apply Hpush. by rewrite space_not_terminator.
    + by apply Hpush.
Qed.

(** X4: every sentence but the last ends with one of [.?!]. *)
Theorem split_sentences_terminated (s : text) :
  exists init tail,
    split_sentences s = init ++ tail
    /\ length tail <= 1
    /\ Forall (fun p => ends_with_terminator p = true) init.
Proof.
  rewrite split_sentences_filter.
  destruct (scan_terminated s false false []) as (init & final & H & Hinit);
    [done..|].
  unfold re_split. rewrite H, filter_app. clear H.
  exists init, (filter (fun p => ~ blank p) [final]).
  split; [|split; [|done]].
  - f_equal. induction Hinit as [|p init Hp _ IH]; [done|].
    rewrite filter_cons_True; [by rewrite IH|].
    intros Hb. unfold ends_with_terminator in Hp.
    destruct (last p) as [c|] eqn:Hlast; [|done].
    apply last_Some in Hlast as [p' ->].
    apply blank_app in Hb as [_ Hb]. inversion Hb as [|? ? Hc _]; subst.
    apply terminator_not_space in Hp. congruence.
  - rewrite filter_cons, filter_nil. destruct (decide _); simpl; lia.
Qed.

Lemma has_boundary_snoc l c :
  has_boundary (l ++ [c])
  = has_boundary l || (ends_with_terminator l && isspace c).
Proof.
  induction l as [|x l IH]; simpl.
  - by rewrite andb_false_r.
  - rewrite IH. destruct l as [|y l].
    + simpl. unfold ends_with_terminator. simpl.
      destruct (is_terminator x), (isspace c); done.
    + replace (ends_with_terminator (x :: y :: l))
        with (ends_with_terminator (y :: l))
        by (unfold ends_with_terminator; by rewrite last_cons_cons).
      simpl.
      destruct (is_terminator x), (isspace y), (has_boundary (y :: l)),
        (ends_with_terminator (y :: l)), (isspace c); done.
Qed.

Lemma scan_atomic s : forall skipping behind cur,
  (skipping = true -> cur = []) ->
  behind = ends_with_terminator (reverse cur) ->
  has_boundary (reverse cur) = false ->
  Forall (fun p => has_boundary p = false)
    (re_split_scan skipping behind cur s).
Proof.
  induction s as [|c s IH]; intros skipping behind cur Hsk Hb Hcur; simpl.
  - by constructor.
  - assert (behind && isspace c = false ->
            Forall (fun p => has_boundary p = false)
              (re_split_scan false (is_terminator c) (c :: cur) s)) as Hpush.
    { intros Hbc. apply IH; [done|by rewrite ends_with_terminator_reverse|].
      by rewrite reverse_cons, has_boundary_snoc, Hcur, <- Hb. }
    destruct (isspace c) eqn:Hc; [destruct skipping; [|destruct behind]|].
    + rewrite (Hsk eq_refl). by apply IH.
    + constructor; [done|]. by apply IH.
    + rewrite (space_not_terminator c Hc) in Hpush. by apply Hpush.
    + apply Hpush. by rewrite andb_false_r.
Qed.

(** X5: a sentence the splitter returns holds no split point: split again, it
    is returned as it is. *)
Theorem split_sentences_idempotent (s p : text) :
  p ∈ split_sentences s -> split_sentences p = [p].
Proof.
  rewrite split_sentences_filter. intros [Hnb Hp]%list_elem_of_filter.
  pose proof (scan_atomic s false false [] ltac:(done) eq_refl eq_refl) as Hat.
  rewrite Forall_forall in Hat. specialize (Hat p Hp).
  rewrite split_sentences_filter. unfold re_split.
  rewrite (scan_no_boundary p false []) by done. simpl.
  by rewrite filter_cons_True.
Qed.

Lemma split_sentences_idempotent_witness :
  str "Book early!"
    ∈ split_sentences (str "Plan the trip. Book early!  Pack light.")
  /\ split_sentences (str "Book early!") = [str "Book early!"].
Proof.
  assert (str "Book early!"
            ∈ split_sentences (str "Plan the trip. Book early!  Pack light."))
    as H by (apply list_elem_of_In; vm_compute; right; left; reflexivity).
  split; [exact H|]. exact (split_sentences_idempotent _ _ H).
Defined.

Lemma starts_with_space_app x y :
  x <> [] -> starts_with_space (x ++ y) = starts_with_space x.
Proof. by destruct x. Qed.

Lemma ends_with_space_app x y :
  y <> [] -> ends_with_space (x ++ y) = ends_with_space y.
Proof.
  intros Hy. unfold ends_with_space. rewrite last_app.
  destruct (last y) eqn:Hl; [done|]. by apply last_None in Hl.
Qed.

Lemma ends_with_terminator_not_space p :
  ends_with_terminator p = true -> ends_with_space p = false.
Proof.
  unfold ends_with_terminator, ends_with_space.
  destruct (last p); [apply terminator_not_space|done].
Qed.

Lemma scan_trimmed s : forall skipping behind cur,
  (skipping = true -> cur = []) ->
  behind = ends_with_terminator (reverse cur) ->
  starts_with_space (reverse cur) = false ->
  (skipping = false -> cur = [] -> starts_with_space s = false) ->
  ends_with_space (reverse cur ++ s) = false ->
  Forall trimmed (re_split_scan skipping behind cur s).
Proof.
  induction s as [|c s IH]; intros skipping behind cur Hsk Hb Hstart Hfirst Hend;
    simpl.
  - rewrite app_nil_r in Hend. by repeat constructor.
  - assert (ends_with_space s = false \/ (s = [] /\ isspace c = false)) as Htail.
    { rewrite ends_with_space_app in Hend by done.
      destruct s as [|d s]; [by right|]. left.
      by rewrite ends_with_space_cons in Hend. }
    assert (isspace c = true -> ends_with_space (reverse [] ++ s) = false)
      as Hrest.
    { intros Hc. destruct Htail as [?|[_ ?]]; [done|congruence]. }
    assert (starts_with_space (reverse (c :: cur)) = false \/ 
            (cur = [] /\ isspace c = true)) as Hpushed.
    { rewrite reverse_cons. destruct cur as [|x cur].
      - simpl. destruct (isspace c); [by right|by left].
      - left. rewrite starts_with_space_app; [done|].
        rewrite reverse_cons. by destruct (reverse cur). }
    assert (forall b, b = is_terminator c ->
              (skipping = true -> isspace c = false) ->
              (cur = [] -> isspace c = false) ->
              Forall trimmed (re_split_scan false b (c :: cur) s)) as Hpush.
    { intros b -> Hs Hcur. apply IH; try done.
      - by rewrite ends_with_terminator_reverse.
      - destruct Hpushed as [?|[Hnil Hc]]; [done|].
        specialize (Hcur Hnil). congruence.
      - by rewrite reverse_cons, <- app_assoc. }
    destruct (isspace c) eqn:Hc; [destruct skipping; [|destruct behind]|].
    + rewrite (Hsk eq_refl). apply IH; try done. by apply Hrest.
    + constructor.
      * split; [done|]. by apply ends_with_terminator_not_space.
      * apply IH; try done. by apply Hrest.
    + apply Hpush; [by rewrite space_not_terminator|done|].
      intros Hnil. specialize (Hfirst eq_refl Hnil). simpl in Hfirst.
      congruence.
    + by apply Hpush.
Qed.

(** X6: the sentences of a text with no whitespace at either end have none
    at either end. *)
Theorem split_sentences_trimmed (s : text) :
  trimmed s -> Forall trimmed (split_sentences s).
Proof.
  intros [Hs He]. rewrite split_sentences_filter.
  pose proof (scan_trimmed s false false [] ltac:(done) eq_refl eq_refl
                (fun _ _ => Hs) He) as Hall.
  rewrite Forall_forall in Hall. apply Forall_forall.
  intros p [_ Hp]%list_elem_of_filter. by apply Hall.
Qed.

Lemma split_sentences_trimmed_witness :
  trimmed (str "Plan the trip. Book early!  Pack light.")
  /\ Forall trimmed
       (split_sentences (str "Plan the trip. Book early!  Pack light.")).
Proof.
  assert (trimmed (str "Plan the trip. Book early!  Pack light.")) as H
    by (split; reflexivity).
  split; [exact H|]. exact (split_sentences_trimmed _ H).
Defined.

(** ** Paths: the document name of a unit *)

Lemma basename_scan_plain fn : forall cur,
  plain_name fn -> basename_scan cur fn = reverse cur ++ fn.
Proof.
  induction fn as [|c fn IH]; intros cur Hfn; simpl.
  - by rewrite app_nil_r.
  - inversion Hfn as [|? ? Hc Hfn']; subst. rewrite Hc, IH by done.
    by rewrite reverse_cons, <- app_assoc.
Qed.

Lemma basename_scan_sep a c b : forall cur,
  is_sep c = true -> basename_scan cur (a ++ c :: b) = basename b.
Proof.
  intros cur Hc. revert cur.
  induction a as [|x a IH]; intros cur; simpl.
  - by rewrite Hc.
  - destruct (is_sep x); apply IH.
Qed.

Lemma basename_path_join pdfdir fn :
  plain_name fn -> basename (path_join pdfdir fn) = fn.
Proof.
  intros Hfn. unfold path_join.
  assert (starts_with_sep fn = false) as ->.
  { destruct Hfn; [done|]. simpl. done. }
  assert (basename fn = fn) as Hplain.
  { unfold basename. by rewrite basename_scan_plain. }
  unfold ends_with_sep.
  destruct (last pdfdir) as [e|] eqn:Hlast.
  - apply last_Some in Hlast as [a ->].
    assert (truthy (a ++ [e]) = true) as -> by (by destruct a).
    simpl. destruct (is_sep e) eqn:He.
    + rewrite <- app_assoc. simpl.
      unfold basename at 1. by rewrite basename_scan_sep.
    + rewrite <- app_assoc. simpl. rewrite (cons_middle e), app_assoc.
      unfold basename at 1. by rewrite basename_scan_sep.
  - apply last_None in Hlast as ->. done.
Qed.

(** ** Pipeline: the shape of the result *)

Section Shape.
Context {tensor : Type}.
Variable env : Capabilities tensor.

Lemma analyse_section_entry q_emb k rank sec out :
  analyse_section env q_emb k rank sec = Some out ->
  section_entry env q_emb k sec out /\ importance_rank out = rank.
Proof.
  unfold analyse_section, section_entry, scores_of.
  destruct (encode_texts env _) as [embs|]; simpl; [|done].
  destruct (cos_sim_row env q_emb embs) as [scores|]; simpl; [|done].
  destruct (sub_entries _ _ _) as [subs|] eqn:Hsub; simpl; [|done].
  intros [= <-]. simpl. repeat split; try done.
  exists scores. split; [done|]. by apply sub_entries_spec.
Qed.

Lemma rank_sections_entries q_emb k all_secs ranked : forall rank out_secs,
  rank_sections env q_emb k all_secs rank ranked = Some out_secs ->
  Forall2 (fun idx out => exists sec,
             all_secs !! idx = Some sec /\ section_entry env q_emb k sec out)
    ranked out_secs
  /\ importance_rank <$> out_secs = seq rank (length out_secs).
Proof.
  induction ranked as [|idx rest IH]; intros rank out_secs; simpl.
  - intros [= <-]. split; [constructor|done].
  - destruct (all_secs !! idx) as [sec|] eqn:Hsec; simpl; [|done].
    destruct (analyse_section env q_emb k rank sec) as [out|] eqn:Hout;
      simpl; [|done].
    destruct (rank_sections env q_emb k all_secs (S rank) rest)
      as [more|] eqn:Hmore; simpl; [|done].
    intros [= <-]. apply analyse_section_entry in Hout as [Hout Hrank].
    apply IH in Hmore as [Hmore Hranks].
    split; [constructor; eauto|]. rewrite fmap_cons, Hrank, Hranks. done.
Qed.

Lemma main_body_shape args cfg res :
  main_body env args cfg = Some res ->
  exists q_emb all_secs scores,
    encode_query env (default [] (cfg_persona cfg) ++ str ". "
                      ++ default [] (cfg_job cfg)) = Some q_emb
    /\ collect_sections env (pdf_dir args) (default [] (cfg_documents cfg))
       = Some all_secs
    /\ scores_of env q_emb (sec_text <$> all_secs) = Some scores
    /\ Forall2 (fun idx out => exists sec,
                  all_secs !! idx = Some sec
                  /\ section_entry env q_emb (top_sentences args) sec out)
         (rank_top (argsort_desc env) scores (top_sections args))
         (extracted_sections res)
    /\ importance_rank <$> extracted_sections res
       = seq 1 (length (extracted_sections res)).
Proof.
  unfold main_body, scores_of.
  destruct (encode_query env _) as [q_emb|]; simpl; [|done].
  destruct (collect_sections env _ _) as [all_secs|]; simpl; [|done].
  destruct (encode_texts env _) as [sec_embs|] eqn:He; simpl; [|done].
  destruct (cos_sim_row env _ _) as [scores|] eqn:Hs; simpl; [|done].
  destruct (rank_sections env _ _ _ _ _) as [out_secs|] eqn:Hout; simpl; [|done].
  intros [= <-]. simpl. apply rank_sections_entries in Hout as [Hout Hranks].
  exists q_emb, all_secs, scores. rewrite He. simpl. by rewrite Hs.
Qed.

Lemma main_loaded args res :
  main env args = Some res ->
  exists cfg, load_config env (config_file args) = Some cfg
              /\ main_body env args cfg = Some res.
Proof.
  unfold main. destruct (load_config env _) as [cfg|]; simpl; [|done]. eauto.
Qed.
End Shape.

(** X7: the values of [importance_rank] in a result are 1, 2, ... up to the
    number of sections, in this order. *)
Theorem main_ranks_dense {tensor} (env : Capabilities tensor)
    (args : arguments) (res : result) :
  main env args = Some res ->
  importance_rank <$> extracted_sections res
  = seq 1 (length (extracted_sections res)).
Proof.
  intros (cfg & _ & Hbody)%main_loaded.
  by apply main_body_shape in Hbody as (? & ? & ? & _ & _ & _ & _ & ?).
Qed.

Lemma demo_main :
  main (demo_env demo_files stable_argsort) demo_args = Some demo_result.
Proof. vm_compute. reflexivity. Qed.

Lemma main_ranks_dense_witness :
  main (demo_env demo_files stable_argsort) demo_args = Some demo_result
  /\ importance_rank <$> extracted_sections demo_result = [1; 2].
Proof.
  split; [exact demo_main|].
  exact (main_ranks_dense _ _ _ demo_main).
Defined.

(** X8: every sub-section entry of a result carries the page number of the
    section it is listed under. *)
Theorem sub_sections_carry_section_page {tensor} (env : Capabilities tensor)
    (args : arguments) (res : result) :
  main env args = Some res ->
  Forall (fun out =>
            Forall (fun e => sub_page_number e = out_page_number out)
              (sub_section_analysis out))
    (extracted_sections res).
Proof.
  intros (cfg & _ & Hbody)%main_loaded.
  apply main_body_shape in Hbody
    as (q_emb & all_secs & scores & _ & _ & _ & Hout & _).
  apply Forall_forall. intros out Hin.
  apply list_elem_of_lookup in Hin as [a Ha].
  destruct (Forall2_lookup_r _ _ _ _ _ Hout Ha)
    as (idx & _ & sec & _ & _ & Hpage & _ & sc & _ & Hsubs).
  apply Forall_forall. intros e He.
  apply list_elem_of_lookup in He as [b Hb].
  destruct (Forall2_lookup_r _ _ _ _ _ Hsubs Hb) as (si & _ & _ & Hp).
  congruence.
Qed.

Lemma sub_sections_carry_section_page_witness :
  main (demo_env demo_files stable_argsort) demo_args = Some demo_result
  /\ Forall (fun out =>
               Forall (fun e => sub_page_number e = out_page_number out)
                 (sub_section_analysis out))
       (extracted_sections demo_result).
Proof.
  split; [exact demo_main|].
  exact (sub_sections_carry_section_page _ _ _ demo_main).
Defined.

(** ** Pipeline: what the sections and sentences of a result are *)

Section Collected.
Context {tensor : Type}.
Variable env : Capabilities tensor.

Lemma extract_pages_document document pages : forall number,
  Forall (fun u => sec_document u = document)
    (extract_pages document number pages).
Proof.
  induction pages as [|raw rest IH]; intros number; simpl; [constructor|].
  destruct (truthy (strip raw)); [constructor; [done|]|]; apply IH.
Qed.

(** Each collected unit has a trimmed, non-empty text and comes from a
    listed document; when the name of that document has no directory
    part, the unit carries that name. *)
Lemma collect_sections_units pdfdir docs all_secs :
  collect_sections env pdfdir docs = Some all_secs ->
  Forall (fun u => sec_text u <> [] /\ trimmed (sec_text u)
                   /\ exists fn, fn ∈ docs
                        /\ sec_document u = basename (path_join pdfdir fn))
    all_secs.
Proof.
  revert all_secs. induction docs as [|fn docs IH]; intros all_secs; simpl.
  - intros [= <-]. constructor.
  - assert (forall more,
              collect_sections env pdfdir docs = Some more ->
              Forall (fun u => sec_text u <> [] /\ trimmed (sec_text u)
                        /\ exists fn', fn' ∈ fn :: docs
                             /\ sec_document u = basename (path_join pdfdir fn'))
                more) as Hrest.
    { intros more Hmore. eapply Forall_impl; [exact (IH _ Hmore)|]. simpl.
      intros u (? & ? & fn' & ? & ?). split; [done|]. split; [done|].
      exists fn'. split; [apply elem_of_cons; by right|done]. }
    destruct (path_exists env (path_join pdfdir fn)); [|apply Hrest].
    unfold extract_page_sections.
    destruct (open_pages env (path_join pdfdir fn)) as [pages|]; simpl; [|done].
    destruct (collect_sections env pdfdir docs) as [more|]; simpl; [|done].
    intros [= <-]. apply Forall_app. split; [|by apply Hrest].
    pose proof (extract_pages_trimmed (basename (path_join pdfdir fn)) pages 0)
      as Ht.
    pose proof (extract_pages_document (basename (path_join pdfdir fn)) pages 0)
      as Hd.
    rewrite Forall_forall in Ht, Hd. apply Forall_forall. intros u Hu.
    destruct (Ht u Hu) as [? ?]. split; [done|]. split; [done|].
    exists fn. split; [apply elem_of_cons; by left|by apply Hd].
Qed.
End Collected.

(** X9: the sections of a result follow the ranking of the collected units
    by their scores against the embedding of the query of the run
    ([persona], ". ", [job]): the ranking is the slice [[:top_sections]] of
    the sorted indices, it holds no unit twice, the scores never increase
    along it, and each section carries the document, page and title of the
    unit at its index. *)
Theorem sections_follow_ranking {tensor} (env : Capabilities tensor)
    (args : arguments) (cfg : config) (res : result) :
  argsort_contract (argsort_desc env) ->
  main_body env args cfg = Some res ->
  exists q_emb all_secs scores ranked,
    encode_query env (default [] (cfg_persona cfg) ++ str ". "
                      ++ default [] (cfg_job cfg)) = Some q_emb
    /\ ranked = rank_top (argsort_desc env) scores (top_sections args)
    /\ collect_sections env (pdf_dir args) (default [] (cfg_documents cfg))
       = Some all_secs
    /\ scores_of env q_emb (sec_text <$> all_secs) = Some scores
    /\ NoDup ranked
    /\ descending scores ranked
    /\ Forall2 (fun idx out => exists sec,
                  all_secs !! idx = Some sec
                  /\ out_document out = sec_document sec
                  /\ out_page_number out = sec_page sec
                  /\ section_title out = sec_title sec)
         ranked (extracted_sections res).
Proof.
  intros Hsort Hbody.
  apply main_body_shape in Hbody
    as (q_emb & all_secs & scores & Hq & Hall & Hscores & Hout & _).
  exists q_emb, all_secs, scores,
    (rank_top (argsort_desc env) scores (top_sections args)).
  destruct (Hsort scores) as [Hp Hd].
  destruct (rank_top_prefix (argsort_desc env) scores (top_sections args))
    as [n Hn].
  repeat split; try done.
  - rewrite Hn. eapply sublist_NoDup; [|apply sublist_take].
    rewrite Hp. apply NoDup_seq.
  - rewrite Hn. by apply take_descending.
  - eapply Forall2_impl; [exact Hout|]. simpl.
    intros idx out (sec & Hsec & Hd' & Hp' & Ht & _). eauto 10.
Qed.

Lemma demo_main_body :
  main_body (demo_env demo_files stable_argsort) demo_args demo_cfg
  = Some demo_result.
Proof. vm_compute. reflexivity. Qed.

Lemma sections_follow_ranking_witness :
  argsort_contract (argsort_desc (demo_env demo_files stable_argsort))
  /\ main_body (demo_env demo_files stable_argsort) demo_args demo_cfg
     = Some demo_result
  /\ exists q_emb all_secs scores ranked,
       encode_query (demo_env demo_files stable_argsort)
         (default [] (cfg_persona demo_cfg) ++ str ". "
          ++ default [] (cfg_job demo_cfg)) = Some q_emb
       /\ ranked = rank_top (argsort_desc (demo_env demo_files stable_argsort))
                     scores (top_sections demo_args)
       /\ collect_sections (demo_env demo_files stable_argsort)
            (pdf_dir demo_args) (default [] (cfg_documents demo_cfg))
          = Some all_secs
       /\ scores_of (demo_env demo_files stable_argsort) q_emb
            (sec_text <$> all_secs) = Some scores
       /\ NoDup ranked
       /\ descending scores ranked
       /\ Forall2 (fun idx out => exists sec,
                     all_secs !! idx = Some sec
                     /\ out_document out = sec_document sec
                     /\ out_page_number out = sec_page sec
                     /\ section_title out = sec_title sec)
            ranked (extracted_sections demo_result).
Proof.
  assert (argsort_contract (argsort_desc (demo_env demo_files stable_argsort)))
    as Hsort by apply stable_argsort_contract_plain, stable_argsort_ok.
  split; [exact Hsort|]. split; [exact demo_main_body|].
  exact (sections_follow_ranking _ _ _ _ Hsort demo_main_body).
Defined.

Lemma sentence_facts s p :
  trimmed s -> p ∈ split_sentences s ->
  trimmed p /\ has_boundary p = false /\ split_sentences p = [p].
Proof.
  intros [Hs He]. rewrite split_sentences_filter.
  intros [Hnb Hp]%list_elem_of_filter.
  pose proof (scan_trimmed s false false [] ltac:(done) eq_refl eq_refl
                (fun _ _ => Hs) He) as Htr.
  pose proof (scan_atomic s false false [] ltac:(done) eq_refl eq_refl) as Hat.
  rewrite Forall_forall in Htr, Hat.
  split; [by apply Htr|]. split; [by apply Hat|].
  rewrite split_sentences_filter. unfold re_split.
  rewrite (scan_no_boundary p false []) by (try done; by apply Hat).
  by rewrite filter_cons_True.
Qed.

(** X10: every [refined_text] of a result has no whitespace at either end and
    holds no split point: it is a single sentence for the splitter. *)
Theorem refined_texts_are_sentences {tensor} (env : Capabilities tensor)
    (args : arguments) (cfg : config) (res : result) :
  main_body env args cfg = Some res ->
  Forall (fun out =>
            Forall (fun e => trimmed (refined_text e)
                             /\ has_boundary (refined_text e) = false
                             /\ split_sentences (refined_text e)
                                = [refined_text e])
              (sub_section_analysis out))
    (extracted_sections res).
Proof.
  intros Hbody.
  apply main_body_shape in Hbody
    as (q_emb & all_secs & scores & _ & Hall & _ & Hout & _).
  apply collect_sections_units in Hall. rewrite Forall_forall in Hall.
  apply Forall_forall. intros out Hin.
  apply list_elem_of_lookup in Hin as [a Ha].
  destruct (Forall2_lookup_r _ _ _ _ _ Hout Ha)
    as (idx & _ & sec & Hsec & _ & _ & _ & sc & _ & Hsubs).
  apply list_elem_of_lookup_2 in Hsec.
  destruct (Hall sec Hsec) as (_ & Htrim & _).
  apply Forall_forall. intros e He.
  apply list_elem_of_lookup in He as [b Hb].
  destruct (Forall2_lookup_r _ _ _ _ _ Hsubs Hb) as (si & _ & Hsi & _).
  apply list_elem_of_lookup_2 in Hsi.
  by apply (sentence_facts (sec_text sec)).
Qed.

Lemma refined_texts_are_sentences_witness :
  main_body (demo_env demo_files stable_argsort) demo_args demo_cfg
  = Some demo_result
  /\ Forall (fun out =>
               Forall (fun e => trimmed (refined_text e)
                                /\ has_boundary (refined_text e) = false
                                /\ split_sentences (refined_text e)
                                   = [refined_text e])
                 (sub_section_analysis out))
       (extracted_sections demo_result).
Proof.
  split; [exact demo_main_body|].
  exact (refined_texts_are_sentences _ _ _ _ demo_main_body).
Defined.

(** X11: when no listed document name has a directory part, the [document] of
    every section of a result is one of the listed names. *)
Theorem section_documents_are_listed {tensor} (env : Capabilities tensor)
    (args : arguments) (cfg : config) (res : result) :
  Forall plain_name (default [] (cfg_documents cfg)) ->
  main_body env args cfg = Some res ->
  Forall (fun out => out_document out ∈ default [] (cfg_documents cfg))
    (extracted_sections res).
Proof.
  intros Hplain Hbody.
  apply main_body_shape in Hbody
    as (q_emb & all_secs & scores & _ & Hall & _ & Hout & _).
  apply collect_sections_units in Hall. rewrite Forall_forall in Hall.
  rewrite Forall_forall in Hplain.
  apply Forall_forall. intros out Hin.
  apply list_elem_of_lookup in Hin as [a Ha].
  destruct (Forall2_lookup_r _ _ _ _ _ Hout Ha)
    as (idx & _ & sec & Hsec & Hdoc & _).
  apply list_elem_of_lookup_2 in Hsec.
  destruct (Hall sec Hsec) as (_ & _ & fn & Hfn & Hname).
  rewrite Hdoc, Hname, basename_path_join; [done|]. by apply Hplain.
Qed.

Lemma section_documents_are_listed_witness :
  Forall plain_name (default [] (cfg_documents demo_cfg))
  /\ main_body (demo_env demo_files stable_argsort) demo_args demo_cfg
     = Some demo_result
  /\ Forall (fun out => out_document out ∈ default [] (cfg_documents demo_cfg))
       (extracted_sections demo_result).
Proof.
  assert (Forall plain_name (default [] (cfg_documents demo_cfg))) as H
    by (repeat constructor).
  split; [exact H|]. split; [exact demo_main_body|].
  exact (section_documents_are_listed _ _ _ _ H demo_main_body).
Defined.

(** ** Pipeline: how many sections and sentences *)

Lemma length_py_slice_to {A} (k : Z) (l : list A) :
  length (py_slice_to k l) = slice_length k (length l).
Proof.
  unfold py_slice_to, slice_length.
  destruct (0 <=? k)%Z; rewrite length_take; lia.
Qed.

(** X12: a result has as many sections as the slice [[:top_sections]] takes
    from the collected units, and each section has as many sub-section
    entries as the slice [[:top_sentences]] takes from its sentences. *)
Theorem result_counts {tensor} (env : Capabilities tensor)
    (args : arguments) (cfg : config) (res : result) :
  argsort_contract (argsort_desc env) -> scoring_contract env ->
  main_body env args cfg = Some res ->
  exists all_secs,
    collect_sections env (pdf_dir args) (default [] (cfg_documents cfg))
    = Some all_secs
    /\ length (extracted_sections res)
       = slice_length (top_sections args) (length all_secs)
    /\ Forall (fun out => exists sec,
                 sec ∈ all_secs /\ out_key out = sec_key sec
                 /\ length (sub_section_analysis out)
                    = slice_length (top_sentences args)
                        (length (split_sentences (sec_text sec))))
         (extracted_sections res).
Proof.
  intros Hsort Hscore Hbody.
  apply main_body_shape in Hbody
    as (q_emb & all_secs & scores & _ & Hall & Hscores & Hout & _).
  exists all_secs. split; [done|]. split.
  - rewrite <- (Forall2_length _ _ _ Hout). unfold rank_top.
    rewrite length_py_slice_to, argsort_length by done.
    by rewrite (Hscore _ _ _ Hscores), length_fmap.
  - apply Forall_forall. intros out Hin.
    apply list_elem_of_lookup in Hin as [a Ha].
    destruct (Forall2_lookup_r _ _ _ _ _ Hout Ha)
      as (idx & _ & sec & Hsec & Hd & Hp & Ht & sc & Hsc & Hsubs).
    exists sec. split; [by eapply list_elem_of_lookup_2|].
    split; [unfold out_key, sec_key; congruence|].
    rewrite <- (Forall2_length _ _ _ Hsubs). unfold rank_top.
    rewrite length_py_slice_to, argsort_length by done.
    by rewrite (Hscore _ _ _ Hsc).
Qed.

Lemma result_counts_witness :
  argsort_contract (argsort_desc (demo_env demo_files stable_argsort))
  /\ scoring_contract (demo_env demo_files stable_argsort)
  /\ main_body (demo_env demo_files stable_argsort) demo_args demo_cfg
     = Some demo_result
  /\ exists all_secs,
       collect_sections (demo_env demo_files stable_argsort)
         (pdf_dir demo_args) (default [] (cfg_documents demo_cfg))
       = Some all_secs
       /\ length (extracted_sections demo_result)
          = slice_length (top_sections demo_args) (length all_secs)
       /\ Forall (fun out => exists sec,
                    sec ∈ all_secs /\ out_key out = sec_key sec
                    /\ length (sub_section_analysis out)
                       = slice_length (top_sentences demo_args)
                           (length (split_sentences (sec_text sec))))
            (extracted_sections demo_result).
Proof.
  assert (argsort_contract (argsort_desc (demo_env demo_files stable_argsort)))
    as Hsort by apply stable_argsort_contract_plain, stable_argsort_ok.
  split; [exact Hsort|]. split; [apply demo_env_scoring|].
  split; [exact demo_main_body|].
  exact (result_counts _ _ _ _ Hsort (demo_env_scoring _ _) demo_main_body).
Defined.

Lemma omap_lookup_seq {A B} (f : A -> B) (l : list A) : forall pre,
  omap (fun i => f <$> (pre ++ l) !! i) (seq (length pre) (length l))
  = f <$> l.
Proof.
  induction l as [|x l IH]; intros pre; simpl; [done|].
  rewrite list_lookup_middle by done. simpl. f_equal.
  specialize (IH (pre ++ [x])).
  rewrite length_app, <- app_assoc in IH. simpl in IH.
  by replace (length pre + 1) with (S (length pre)) in IH by lia.
Qed.

(** X13: when [top_sections] is at least the number of collected units, the
    sections of the result are these units, each exactly once. *)
Theorem all_units_returned {tensor} (env : Capabilities tensor)
    (args : arguments) (cfg : config) (res : result)
    (all_secs : list section) :
  argsort_contract (argsort_desc env) -> scoring_contract env ->
  collect_sections env (pdf_dir args) (default [] (cfg_documents cfg))
  = Some all_secs ->
  (Z.of_nat (length all_secs) <= top_sections args)%Z ->
  main_body env args cfg = Some res ->
  out_key <$> extracted_sections res ≡ₚ sec_key <$> all_secs.
Proof.
  intros Hsort Hscore Hall Hk Hbody.
  apply main_body_shape in Hbody
    as (q_emb & all_secs' & scores & _ & Hall' & Hscores & Hout & _).
  assert (all_secs' = all_secs) as -> by congruence.
  pose proof (Hscore _ _ _ Hscores) as Hlen. rewrite length_fmap in Hlen.
  assert (rank_top (argsort_desc env) scores (top_sections args)
          = argsort_desc env scores) as Hranked.
  { unfold rank_top, py_slice_to.
    replace (0 <=? top_sections args)%Z with true
      by (symmetry; apply Z.leb_le; lia).
    apply take_ge. rewrite argsort_length by done. lia. }
  rewrite Hranked in Hout.
  assert (forall ranked outs,
            Forall2 (fun idx out => exists sec,
                       all_secs !! idx = Some sec
                       /\ section_entry env q_emb (top_sentences args) sec out)
              ranked outs ->
            out_key <$> outs
            = omap (fun i => sec_key <$> all_secs !! i) ranked) as Hmap.
  { intros ranked outs H.
    induction H as [|idx out ranked outs (sec & Hsec & Hd & Hp & Ht & _) _ IH];
      [done|].
    rewrite fmap_cons. simpl. rewrite Hsec. simpl. rewrite IH.
    f_equal. unfold out_key, sec_key. congruence. }
  rewrite (Hmap _ _ Hout).
  destruct (Hsort scores) as [Hperm _]. rewrite Hperm, Hlen.
  pose proof (omap_lookup_seq sec_key all_secs []) as Hseq.
  simpl in Hseq. by rewrite Hseq.
Qed.

Lemma all_units_returned_witness :
  collect_sections (demo_env demo_files stable_argsort) (pdf_dir demo_args)
    (default [] (cfg_documents demo_cfg))
  = Some [page_unit (str "guide.pdf")
            (1, str "Plan the trip. Book early!  Pack light.
");
          page_unit (str "guide.pdf") (3, str "Visit the old town.")]
  /\ out_key <$> extracted_sections demo_result
     ≡ₚ sec_key
          <$> [page_unit (str "guide.pdf")
                 (1, str "Plan the trip. Book early!  Pack light.
");
               page_unit (str "guide.pdf") (3, str "Visit the old town.")].
Proof.
  assert (collect_sections (demo_env demo_files stable_argsort)
            (pdf_dir demo_args) (default [] (cfg_documents demo_cfg))
          = Some [page_unit (str "guide.pdf")
                    (1, str "Plan the trip. Book early!  Pack light.
");
                  page_unit (str "guide.pdf") (3, str "Visit the old town.")])
    as Hall by (vm_compute; reflexivity).
  split; [exact Hall|].
  apply (all_units_returned (demo_env demo_files stable_argsort) demo_args
           demo_cfg demo_result _
           (stable_argsort_contract_plain _ stable_argsort_ok)
           (demo_env_scoring _ _) Hall);
    [vm_compute; discriminate | exact demo_main_body].
Defined.

(** ** Pipeline: asking for fewer sections *)

Lemma rank_sections_take {tensor} (env : Capabilities tensor) q_emb k all_secs
    ranked : forall n rank out_secs,
  rank_sections env q_emb k all_secs rank ranked = Some out_secs ->
  rank_sections env q_emb k all_secs rank (take n ranked)
  = Some (take n out_secs).
Proof.
  induction ranked as [|idx rest IH]; intros n rank out_secs; simpl.
  - intros [= <-]. by destruct n.
  - destruct (all_secs !! idx) as [sec|] eqn:Hsec; simpl; [|done].
    destruct (analyse_section env q_emb k rank sec) as [out|] eqn:Hout;
      simpl; [|done].
    destruct (rank_sections env q_emb k all_secs (S rank) rest)
      as [more|] eqn:Hmore; simpl; [|done].
    intros [= <-]. destruct n as [|n]; simpl; [done|].
    rewrite Hsec. simpl. rewrite Hout. simpl.
    by rewrite (IH n (S rank) more).
Qed.

(** X14: a run that returns a result also returns one for any smaller count
    [0 <= k <= top_sections]: the same metadata and the first [k] sections
    of that result, unchanged. *)
Theorem fewer_sections_is_prefix {tensor} (env : Capabilities tensor)
    (args : arguments) (cfg : config) (res : result) (k : Z) :
  (0 <= k <= top_sections args)%Z ->
  main_body env args cfg = Some res ->
  main_body env (with_top_sections args k) cfg
  = Some {| res_metadata := res_metadata res;
            extracted_sections := take (Z.to_nat k) (extracted_sections res) |}.
Proof.
  intros Hk. unfold main_body. simpl.
  destruct (encode_query env _) as [q_emb|]; simpl; [|done].
  destruct (collect_sections env _ _) as [all_secs|]; simpl; [|done].
  destruct (encode_texts env _) as [sec_embs|]; simpl; [|done].
  destruct (cos_sim_row env _ _) as [scores|]; simpl; [|done].
  destruct (rank_sections env _ _ _ _ _) as [out_secs|] eqn:Hout; simpl; [|done].
  intros [= <-]. simpl.
  assert (rank_top (argsort_desc env) scores k
          = take (Z.to_nat k)
              (rank_top (argsort_desc env) scores (top_sections args))) as ->.
  { unfold rank_top, py_slice_to.
    replace (0 <=? k)%Z with true by (symmetry; apply Z.leb_le; lia).
    replace (0 <=? top_sections args)%Z with true
      by (symmetry; apply Z.leb_le; lia).
    rewrite take_take. f_equal. lia. }
  by rewrite (rank_sections_take _ _ _ _ _ _ _ _ Hout).
Qed.

Lemma fewer_sections_is_prefix_witness :
  (0 <= 1 <= top_sections demo_args)%Z
  /\ main_body (demo_env demo_files stable_argsort) demo_args demo_cfg
     = Some demo_result
  /\ main_body (demo_env demo_files stable_argsort)
       (with_top_sections demo_args 1) demo_cfg
     = Some {| res_metadata := res_metadata demo_result;
               extracted_sections :=
                 take (Z.to_nat 1) (extracted_sections demo_result) |}.
Proof.
  assert (0 <= 1 <= top_sections demo_args)%Z as Hk
    by (unfold demo_args; simpl; lia).
  split; [exact Hk|]. split; [exact demo_main_body|].
  exact (fewer_sections_is_prefix _ _ _ _ _ Hk demo_main_body).
Defined.

(** ** Pipeline: a document the reader cannot open *)

Lemma collect_sections_none {tensor} (env : Capabilities tensor) pdfdir docs :
  collect_sections env pdfdir docs = None
  <-> exists fn, fn ∈ docs
        /\ path_exists env (path_join pdfdir fn) = true
        /\ open_pages env (path_join pdfdir fn) = None.
Proof.
  induction docs as [|fn docs IH]; simpl.
  - split; [done|]. intros (fn & Hfn & _). by apply not_elem_of_nil in Hfn.
  - assert ((exists fn', fn' ∈ docs
               /\ path_exists env (path_join pdfdir fn') = true
               /\ open_pages env (path_join pdfdir fn') = None)
            -> exists fn', fn' ∈ fn :: docs
               /\ path_exists env (path_join pdfdir fn') = true
               /\ open_pages env (path_join pdfdir fn') = None) as Hweak.
    { intros (fn' & ? & ?). exists fn'. split; [|done].
      apply elem_of_cons. by right. }
    unfold extract_page_sections.
    destruct (path_exists env (path_join pdfdir fn)) eqn:Hex.
    + destruct (open_pages env (path_join pdfdir fn)) as [pages|] eqn:Hop;
        simpl.
      * destruct (collect_sections env pdfdir docs) as [more|]; simpl.
        -- split; [done|]. intros (fn' & [->|Hin]%elem_of_cons & He & Ho).
           ++ congruence.
           ++ assert (Some more = None) as Hn by (apply IH; eauto).
              done.
        -- split; [|done]. intros _. apply Hweak, IH. done.
      * split; [|done]. intros _. exists fn.
        split; [apply elem_of_cons; by left|done].
    + rewrite IH. split; [apply Hweak|].
      intros (fn' & [->|Hin]%elem_of_cons & He & Ho); [congruence|eauto].
Qed.

(** X15: when a listed document exists and the reader raises on it, the
    units cannot be collected and the run returns no result, whatever the
    other documents are. *)
Theorem unreadable_document_aborts {tensor} (env : Capabilities tensor)
    (args : arguments) (cfg : config) (fn : text) :
  fn ∈ default [] (cfg_documents cfg) ->
  path_exists env (path_join (pdf_dir args) fn) = true ->
  open_pages env (path_join (pdf_dir args) fn) = None ->
  collect_sections env (pdf_dir args) (default [] (cfg_documents cfg)) = None
  /\ main_body env args cfg = None.
Proof.
  intros Hfn Hex Hop.
  assert (collect_sections env (pdf_dir args)
            (default [] (cfg_documents cfg)) = None) as Hnone
    by (apply collect_sections_none; eauto).
  split; [done|]. unfold main_body.
  destruct (encode_query env _) as [q_emb|]; simpl; [|done].
  by rewrite Hnone.
Qed.

Lemma unreadable_document_aborts_witness :
  str "gone.pdf" ∈ default [] (cfg_documents demo_cfg)
  /\ path_exists demo_env_all_exist
       (path_join (pdf_dir demo_args) (str "gone.pdf")) = true
  /\ open_pages demo_env_all_exist
       (path_join (pdf_dir demo_args) (str "gone.pdf")) = None
  /\ main_body demo_env_all_exist demo_args demo_cfg = None.
Proof.
  assert (str "gone.pdf" ∈ default [] (cfg_documents demo_cfg)) as Hin
    by (apply elem_of_cons; by left).
  split; [exact Hin|]. split; [reflexivity|]. split; [reflexivity|].
  apply (unreadable_document_aborts demo_env_all_exist demo_args demo_cfg
           (str "gone.pdf") Hin eq_refl eq_refl).
Defined.

(** ** Pipeline: the run completes *)

Lemma demo_env_scoring_total files argsort q_emb texts :
  texts <> [] -> is_Some (scores_of (demo_env files argsort) q_emb texts).
Proof. destruct texts; [done|]. intros _. by eexists. Qed.

Lemma main_runs_witness :
  argsort_contract (argsort_desc (demo_env demo_files stable_argsort))
  /\ scoring_contract (demo_env demo_files stable_argsort)
  /\ (1 <= top_sections demo_args)%Z /\ (1 <= top_sentences demo_args)%Z
  /\ exists res,
       main_body (demo_env demo_files stable_argsort) demo_args demo_cfg
       = Some res
       /\ importance_rank <$> extracted_sections res
          = seq 1 (Nat.min (Z.to_nat (top_sections demo_args)) 2).
Proof.
  assert (argsort_contract (argsort_desc (demo_env demo_files stable_argsort)))
    as Hsort by apply stable_argsort_contract_plain, stable_argsort_ok.
  assert (1 <= top_sections demo_args)%Z as Hk1
    by (unfold demo_args; simpl; lia).
  assert (1 <= top_sentences demo_args)%Z as Hk2
    by (unfold demo_args; simpl; lia).
  split; [exact Hsort|]. split; [apply demo_env_scoring|].
  split; [exact Hk1|]. split; [exact Hk2|].
  apply (main_runs (demo_env demo_files stable_argsort) Hsort
           (demo_env_scoring _ _) (demo_env_scoring_total _ _) demo_args
           demo_cfg
           [page_unit (str "guide.pdf")
              (1, str "Plan the trip. Book early!  Pack light.
");
            page_unit (str "guide.pdf") (3, str "Visit the old town.")]);
    [by eexists | vm_compute; reflexivity | discriminate | exact Hk1
    | exact Hk2].
Defined.
